(** * IAM join method of the auth server: lib/auth/iam_join.go

    A shallow embedding of the server side of the IAM join handshake
    (request validation, identity resolution, allow-rule matching and the
    handshake itself) together with the properties the design document
    states about it.

    Go strings are byte strings: they are modelled as [string] (a list of
    8-bit [ascii]).  A Go [error] return is an [option error], [None] being
    [nil]. *)

From Stdlib Require Import NArith Ascii String List Bool Lia.
From stdpp Require Import base option list gmap strings.

Open Scope string_scope.

(** ** Errors (github.com/gravitational/trace and library errors) *)

(** A message built by [fmt.Sprintf]-style arguments.  Rendering of the
    verbs is not modelled: the format and its arguments are kept apart. *)
Record message := Message { format : string; args : list string }.

(** What an error is about.  [AccessDenied] and [BadParameter] are the two
    trace classes this file creates; the others are errors returned by the
    libraries and collaborators it calls. *)
Inductive kind :=
| AccessDenied (m : message)
| BadParameter (m : message)
| SyntaxError (code : string)      (* regexp/syntax.Error *)
| ReadError (detail : string)      (* io error while reading a body *)
| External (detail : string).      (* any other collaborator error *)

(** [Raw] is an error as a library returned it, [Traced] one that went
    through the trace package. *)
Inductive error :=
| Raw (k : kind)
| Traced (k : kind).

Definition error_kind (e : error) : kind :=
  match e with Raw k | Traced k => k end.

(** trace.Wrap: nil stays nil, the kind of the error is preserved. *)
Definition Wrap (e : error) : error := Traced (error_kind e).

Definition trace_Wrap (err : option error) : option error :=
  match err with
  | None => None
  | Some e => Some (Wrap e)
  end.

Definition AccessDeniedError (fmt : string) (a : list string) : error :=
  Traced (AccessDenied (Message fmt a)).

Definition BadParameterError (fmt : string) (a : list string) : error :=
  Traced (BadParameter (Message fmt a)).

Definition trace_AccessDenied (fmt : string) (a : list string) : option error :=
  Some (AccessDeniedError fmt a).

Definition trace_BadParameter (fmt : string) (a : list string) : option error :=
  Some (BadParameterError fmt a).

(** trace.IsAccessDenied / trace.IsBadParameter, on an error return. *)
Definition IsAccessDenied (err : option error) : bool :=
  match err with
  | Some e => match error_kind e with AccessDenied _ => true | _ => false end
  | None => false
  end.

Definition IsBadParameter (err : option error) : bool :=
  match err with
  | Some e => match error_kind e with BadParameter _ => true | _ => false end
  | None => false
  end.

(** Whether the error went through the trace package. *)
Definition is_traced (e : error) : bool :=
  match e with
  | Traced _ => true
  | Raw _ => false
  end.

(** ** package strings *)

(** strings.ReplaceAll(s, old, new) for a one-byte [old], which is how both
    call sites use it. *)
Fixpoint strings_ReplaceAll (s : string) (old : ascii) (new : string) : string :=
  match s with
  | EmptyString => EmptyString
  | String c t =>
      if Ascii.eqb c old then new +:+ strings_ReplaceAll t old new
      else String c (strings_ReplaceAll t old new)
  end.

(** strings.Split(s, sep) for a one-byte [sep]: the pieces between the
    separators, empty pieces included; the empty string gives one empty
    piece. *)
Fixpoint strings_Split (s : string) (sep : ascii) : list string :=
  match s with
  | EmptyString => [EmptyString]
  | String c t =>
      if Ascii.eqb c sep then EmptyString :: strings_Split t sep
      else match strings_Split t sep with
           | p :: ps => String c p :: ps
           | [] => [String c EmptyString]
           end
  end.

(** Modelled from the spec: utils.SliceContainsStr of api/utils is not under
    src/; it reports whether the slice holds a string equal to the value. *)
Definition SliceContainsStr (slice : list string) (value : string) : bool :=
  existsb (String.eqb value) slice.

(** ** package unicode/utf8 *)

Definition rune := N.
Definition RuneError : rune := 65533%N.

Definition between (lo hi b : N) : bool := ((lo <=? b) && (b <=? hi))%N.

(** The table [first] of utf8.go for a leading byte of a multi-byte
    sequence: the length of the sequence and the range the second byte must
    lie in.  [None] is the entry xx (invalid leading byte). *)
Definition utf8_first (b : N) : option (nat * N * N) :=
  if between 194 223 b then Some (2%nat, 128%N, 191%N)
  else if (b =? 224)%N then Some (3%nat, 160%N, 191%N)
  else if between 225 236 b then Some (3%nat, 128%N, 191%N)
  else if (b =? 237)%N then Some (3%nat, 128%N, 159%N)
  else if between 238 239 b then Some (3%nat, 128%N, 191%N)
  else if (b =? 240)%N then Some (4%nat, 144%N, 191%N)
  else if between 241 243 b then Some (4%nat, 128%N, 191%N)
  else if (b =? 244)%N then Some (4%nat, 128%N, 143%N)
  else None.

(** A decoded rune with the bytes it was read from. *)
Definition chunk : Type := rune * string.

Definition low6 (b : N) : N := N.land b 63.

(** The input as the sequence of runes utf8.DecodeRuneInString yields when
    called repeatedly: a byte that does not start a valid encoding is one
    [RuneError] of width 1. *)
Fixpoint utf8_chunks (s : string) : list chunk :=
  match s with
  | EmptyString => []
  | String a0 t0 =>
    let b0 := N_of_ascii a0 in
    let bad := fun _ : unit => (RuneError, String a0 EmptyString) :: utf8_chunks t0 in
    if (b0 <? 128)%N then (b0, String a0 EmptyString) :: utf8_chunks t0
    else match utf8_first b0 with
    | None => bad tt
    | Some (sz, lo, hi) =>
      match t0 with
      | EmptyString => bad tt
      | String a1 t1 =>
        let b1 := N_of_ascii a1 in
        if negb (between lo hi b1) then bad tt
        else if Nat.eqb sz 2 then
          (N.lor (N.shiftl (N.land b0 31) 6) (low6 b1),
           String a0 (String a1 EmptyString)) :: utf8_chunks t1
        else match t1 with
        | EmptyString => bad tt
        | String a2 t2 =>
          let b2 := N_of_ascii a2 in
          if negb (between 128 191 b2) then bad tt
          else if Nat.eqb sz 3 then
            (N.lor (N.shiftl (N.land b0 15) 12)
                   (N.lor (N.shiftl (low6 b1) 6) (low6 b2)),
             String a0 (String a1 (String a2 EmptyString))) :: utf8_chunks t2
          else match t2 with
          | EmptyString => bad tt
          | String a3 t3 =>
            let b3 := N_of_ascii a3 in
            if negb (between 128 191 b3) then bad tt
            else
              (N.lor (N.shiftl (N.land b0 7) 18)
                     (N.lor (N.shiftl (low6 b1) 12)
                            (N.lor (N.shiftl (low6 b2) 6) (low6 b3))),
               String a0 (String a1 (String a2 (String a3 EmptyString))))
              :: utf8_chunks t3
          end
        end
      end
    end
  end.

(** utf8.ValidString: no byte decodes to an error of width one. *)
Definition utf8_ValidString (s : string) : bool :=
  forallb (fun c : chunk =>
             negb ((fst c =? RuneError)%N && Nat.eqb (String.length (snd c)) 1))
          (utf8_chunks s).

(** A byte outside ASCII. *)
Definition high (c : ascii) : bool := (128 <=? N_of_ascii c)%N.

(** ** package regexp/syntax and regexp (a subset)

    The regular expressions of this file are parsed and run by Go's regexp
    package, which is not part of the repository.  The model below follows
    regexp/syntax for the operators the file's patterns are built from:
    literals, [.], [*], [+], [|], capture groups, [^], [$], [\S] and escaped
    punctuation, with the parser's left-to-right error reporting.  A pattern
    that uses anything else ([?], [[], [{], a backslash before a letter or
    digit other than S) is [Unmodelled]: nothing is stated about it.  The
    limits that later releases of the package put on the nesting depth and
    the size of an expression are not modelled either. *)

Inductive Regexp :=
| OpEmptyMatch
| OpLiteral (r : rune)
| OpCharClass (ranges : list (rune * rune))
| OpAnyCharNotNL
| OpBeginText
| OpEndText
| OpCapture (cap : nat) (sub : Regexp)
| OpStar (sub : Regexp)
| OpPlus (sub : Regexp)
| OpConcat (a b : Regexp)
| OpAlternate (a b : Regexp).

Inductive parsed :=
| Parsed (re : Regexp) (ncap : nat)
| ParseError (code : string)
| Unmodelled.

(** The parser's stack, kept as the group being read ([top]) and the groups
    left open around it, each with its capture index. *)
Record frame := Frame { alts : list Regexp; cur : list Regexp }.

Record parser := Parser {
  top : frame;
  stack : list (nat * frame);
  numCap : nat;
  lastRepeat : bool
}.

Definition rune_of (a : ascii) : rune := N_of_ascii a.

Definition isalnum (c : rune) : bool :=
  between 48 57 c || between 65 90 c || between 97 122 c.

(** The items of a concatenation, last one first. *)
Definition concat (items : list Regexp) : Regexp :=
  match items with
  | [] => OpEmptyMatch
  | last :: before => fold_left (fun acc x => OpConcat x acc) before last
  end.

(** The branches of an alternation, last one first. *)
Definition alternate (branches : list Regexp) : Regexp :=
  match branches with
  | [] => OpEmptyMatch
  | last :: before => fold_left (fun acc x => OpAlternate x acc) before last
  end.

Definition collapse (f : frame) : Regexp :=
  alternate (concat (cur f) :: alts f).

Definition push (p : parser) (re : Regexp) : parser :=
  Parser (Frame (alts (top p)) (re :: cur (top p))) (stack p) (numCap p) false.

(** Perl class \S: the complement of [\t\n\f\r ]. *)
Definition perl_S : Regexp :=
  OpCharClass [(0, 8); (11, 11); (14, 31); (33, 1114111)]%N.

Definition ErrInvalidRepeatOp := "invalid nested repetition operator".
Definition ErrMissingRepeatArgument := "missing argument to repetition operator".
Definition ErrMissingParen := "missing closing )".
Definition ErrUnexpectedParen := "unexpected )".
Definition ErrTrailingBackslash := "trailing backslash at end of expression".
Definition ErrInvalidEscape := "invalid escape sequence".
Definition ErrInvalidUTF8 := "invalid UTF-8".

Fixpoint parse_loop (t : list rune) (p : parser) : parsed :=
  match t with
  | [] =>
      match stack p with
      | [] => Parsed (collapse (top p)) (numCap p)
      | _ :: _ => ParseError ErrMissingParen
      end
  | c :: t' =>
      if (c =? rune_of "(")%N then
        match t' with
        | q :: _ =>
            if (q =? rune_of "?")%N then Unmodelled
            else parse_loop t' (Parser (Frame [] [])
                                       ((S (numCap p), top p) :: stack p)
                                       (S (numCap p)) false)
        | [] => parse_loop t' (Parser (Frame [] [])
                                      ((S (numCap p), top p) :: stack p)
                                      (S (numCap p)) false)
        end
      else if (c =? rune_of "|")%N then
        parse_loop t' (Parser (Frame (concat (cur (top p)) :: alts (top p)) [])
                              (stack p) (numCap p) false)
      else if (c =? rune_of ")")%N then
        match stack p with
        | [] => ParseError ErrUnexpectedParen
        | (i, f) :: st =>
            parse_loop t' (Parser (Frame (alts f)
                                         (OpCapture i (collapse (top p)) :: cur f))
                                  st (numCap p) false)
        end
      else if (c =? rune_of "^")%N then parse_loop t' (push p OpBeginText)
      else if (c =? rune_of "$")%N then parse_loop t' (push p OpEndText)
      else if (c =? rune_of ".")%N then parse_loop t' (push p OpAnyCharNotNL)
      else if (c =? rune_of "*")%N || (c =? rune_of "+")%N then
        if lastRepeat p then ParseError ErrInvalidRepeatOp
        else match cur (top p) with
             | [] => ParseError ErrMissingRepeatArgument
             | sub :: rest =>
                 parse_loop t'
                   (Parser (Frame (alts (top p))
                              ((if (c =? rune_of "*")%N then OpStar sub
                                else OpPlus sub) :: rest))
                           (stack p) (numCap p) true)
             end
      else if (c =? rune_of "?")%N || (c =? rune_of "[")%N
              || (c =? rune_of "{")%N then Unmodelled
      else if (c =? 92)%N then
        match t' with
        | [] => ParseError ErrTrailingBackslash
        | e :: t'' =>
            if (e =? rune_of "S")%N then parse_loop t'' (push p perl_S)
            else if isalnum e then Unmodelled
            else if (e <? 128)%N then parse_loop t'' (push p (OpLiteral e))
            else ParseError ErrInvalidEscape
        end
      else parse_loop t' (push p (OpLiteral c))
  end.

(** syntax.Parse(s, syntax.Perl). *)
Definition syntax_Parse (s : string) : parsed :=
  if negb (utf8_ValidString s) then ParseError ErrInvalidUTF8
  else parse_loop (map fst (utf8_chunks s)) (Parser (Frame [] []) [] 0 false).

(** *** Matching: leftmost-first backtracking *)

(** Capture registers: group index to the rune positions it spans. *)
Definition caps := gmap nat (nat * nat).

Definition cont : Type := nat -> list chunk -> caps -> option caps.

(** The first alternative that succeeds; the second one is only run when
    the first fails. *)
Notation "x 'orelse' y" :=
  (match x with Some v => Some v | None => y end)
  (at level 60, right associativity, only parsing).

Definition in_class (ranges : list (rune * rune)) (r : rune) : bool :=
  existsb (fun lh => between (fst lh) (snd lh) r) ranges.

Definition one_rune (ok : rune -> bool) (pos : nat) (s : list chunk)
    (c : caps) (k : cont) : option caps :=
  match s with
  | (r, _) :: s' => if ok r then k (S pos) s' c else None
  | [] => None
  end.

(** Greedy iteration of [body]; an iteration that consumes nothing is not
    repeated.  [n] bounds the iterations by the runes that are left. *)
Fixpoint star_loop (body : nat -> list chunk -> caps -> cont -> option caps)
    (k : cont) (n : nat) (pos : nat) (s : list chunk) (c : caps) : option caps :=
  match n with
  | O => k pos s c
  | S n' =>
      body pos s c (fun pos' s' c' =>
                if (pos <? pos')%nat then star_loop body k n' pos' s' c'
                else None)
      orelse k pos s c
  end.

Fixpoint backtrack (re : Regexp) (pos : nat) (s : list chunk) (c : caps)
    (k : cont) {struct re} : option caps :=
  match re with
  | OpEmptyMatch => k pos s c
  | OpLiteral x => one_rune (N.eqb x) pos s c k
  | OpCharClass ranges => one_rune (in_class ranges) pos s c k
  | OpAnyCharNotNL => one_rune (fun r => negb (r =? 10)%N) pos s c k
  | OpBeginText => if (pos =? 0)%nat then k pos s c else None
  | OpEndText => match s with [] => k pos s c | _ :: _ => None end
  | OpCapture i sub =>
      backtrack sub pos s c (fun pos' s' c' => k pos' s' (<[i := (pos, pos')]> c'))
  | OpStar sub => star_loop (backtrack sub) k (length s) pos s c
  | OpPlus sub =>
      backtrack sub pos s c (fun pos' s' c' =>
        star_loop (backtrack sub) k (length s') pos' s' c')
  | OpConcat a b =>
      backtrack a pos s c (fun pos' s' c' => backtrack b pos' s' c' k)
  | OpAlternate a b =>
      backtrack a pos s c k orelse backtrack b pos s c k
  end.

(** The leftmost match: start positions are tried from the left. *)
Fixpoint search (re : Regexp) (pos : nat) (s : list chunk) : option caps :=
  backtrack re pos s ∅ (fun pos' _ c => Some (<[0%nat := (pos, pos')]> c))
  orelse match s with
         | [] => None
         | _ :: s' => search re (S pos) s'
         end.

(** A compiled regular expression. *)
Record Regexp_t := { expr : Regexp; numSubexp : nat }.

(** The bytes of the runes from position [a] up to [b]. *)
Definition slice (ch : list chunk) (a b : nat) : string :=
  fold_right (fun c acc => snd c +:+ acc) "" (take (b - a) (drop a ch)).

(** Regexp.FindStringSubmatch: nil without a match, otherwise the text of
    the match followed by the text of each group. *)
Definition FindStringSubmatch (re : Regexp_t) (s : string) : list string :=
  let ch := utf8_chunks s in
  match search (expr re) 0 ch with
  | None => []
  | Some c =>
      map (fun i => match c !! i with
                    | Some (a, b) => slice ch a b
                    | None => ""
                    end)
          (seq 0 (S (numSubexp re)))
  end.

(** A result of the regexp model: [Beyond] when the pattern is outside the
    modelled subset. *)
Inductive modelled (A : Type) : Type :=
| Returns (a : A)
| Beyond.
Arguments Returns {A} a.
Arguments Beyond {A}.

(** regexp.Compile: the parsed expression with its number of groups, or the
    syntax error. *)
Definition regexp_Compile (pattern : string) : modelled (Regexp_t * option error) :=
  match syntax_Parse pattern with
  | Parsed re n => Returns ({| expr := re; numSubexp := n |}, None)
  | ParseError code =>
      Returns ({| expr := OpEmptyMatch; numSubexp := 0 |}, Some (Raw (SyntaxError code)))
  | Unmodelled => Beyond
  end.

(** Regexp.MatchString: whether the expression matches anywhere in [s]. *)
Definition Regexp_MatchString (re : Regexp_t) (s : string) : bool :=
  match search (expr re) 0 (utf8_chunks s) with
  | Some _ => true
  | None => false
  end.

(** regexp.MatchString(pattern, s): compile, give up with the compile
    error, otherwise match. *)
Definition regexp_MatchString (pattern s : string) : modelled (bool * option error) :=
  match regexp_Compile pattern with
  | Returns (re, None) => Returns (Regexp_MatchString re s, None)
  | Returns (_, Some err) => Returns (false, Some err)
  | Beyond => Beyond
  end.

(** *** The language of an expression *)

(** The language of an expression: [matches re pos s rest] says that [re]
    matches the runes [s] found at rune position [pos] of the text and
    followed by [rest]. *)
Inductive matches : Regexp -> nat -> list chunk -> list chunk -> Prop :=
| MEmpty pos rest : matches OpEmptyMatch pos [] rest
| MLiteral r b pos rest : matches (OpLiteral r) pos [(r, b)] rest
| MClass ranges r b pos rest :
    in_class ranges r = true -> matches (OpCharClass ranges) pos [(r, b)] rest
| MAny r b pos rest :
    (r =? 10)%N = false -> matches OpAnyCharNotNL pos [(r, b)] rest
| MBegin rest : matches OpBeginText 0 [] rest
| MEnd pos : matches OpEndText pos [] []
| MCapture i sub pos s rest :
    matches sub pos s rest -> matches (OpCapture i sub) pos s rest
| MStarStop sub pos rest : matches (OpStar sub) pos [] rest
| MStarStep sub pos s1 s2 rest :
    matches sub pos s1 (s2 ++ rest)%list ->
    matches (OpStar sub) (pos + length s1) s2 rest ->
    matches (OpStar sub) pos (s1 ++ s2)%list rest
| MPlus sub pos s1 s2 rest :
    matches sub pos s1 (s2 ++ rest)%list ->
    matches (OpStar sub) (pos + length s1) s2 rest ->
    matches (OpPlus sub) pos (s1 ++ s2)%list rest
| MConcat a b pos s1 s2 rest :
    matches a pos s1 (s2 ++ rest)%list ->
    matches b (pos + length s1) s2 rest ->
    matches (OpConcat a b) pos (s1 ++ s2)%list rest
| MAltL a b pos s rest : matches a pos s rest -> matches (OpAlternate a b) pos s rest
| MAltR a b pos s rest : matches b pos s rest -> matches (OpAlternate a b) pos s rest.

(** A match with the capture registers before and after it. *)
Inductive captures : Regexp -> nat -> list chunk -> list chunk -> caps -> caps -> Prop :=
| CEmpty pos rest c : captures OpEmptyMatch pos [] rest c c
| CLiteral r b pos rest c : captures (OpLiteral r) pos [(r, b)] rest c c
| CClass ranges r b pos rest c :
    in_class ranges r = true -> captures (OpCharClass ranges) pos [(r, b)] rest c c
| CAny r b pos rest c :
    (r =? 10)%N = false -> captures OpAnyCharNotNL pos [(r, b)] rest c c
| CBegin rest c : captures OpBeginText 0 [] rest c c
| CEnd pos c : captures OpEndText pos [] [] c c
| CCapture i sub pos s rest c c' :
    captures sub pos s rest c c' ->
    captures (OpCapture i sub) pos s rest c (<[i := (pos, (pos + length s)%nat)]> c')
| CStarStop sub pos rest c : captures (OpStar sub) pos [] rest c c
| CStarStep sub pos s1 s2 rest c c1 c2 :
    captures sub pos s1 (s2 ++ rest)%list c c1 ->
    captures (OpStar sub) (pos + length s1) s2 rest c1 c2 ->
    captures (OpStar sub) pos (s1 ++ s2)%list rest c c2
| CPlus sub pos s1 s2 rest c c1 c2 :
    captures sub pos s1 (s2 ++ rest)%list c c1 ->
    captures (OpStar sub) (pos + length s1) s2 rest c1 c2 ->
    captures (OpPlus sub) pos (s1 ++ s2)%list rest c c2
| CConcat a b pos s1 s2 rest c c1 c2 :
    captures a pos s1 (s2 ++ rest)%list c c1 ->
    captures b (pos + length s1) s2 rest c1 c2 ->
    captures (OpConcat a b) pos (s1 ++ s2)%list rest c c2
| CAltL a b pos s rest c c' :
    captures a pos s rest c c' -> captures (OpAlternate a b) pos s rest c c'
| CAltR a b pos s rest c c' :
    captures b pos s rest c c' -> captures (OpAlternate a b) pos s rest c c'.

(** What a successful run of the matcher means. *)
Definition tracks (re : Regexp) (run : nat -> list chunk -> caps -> cont -> option caps)
  : Prop :=
  forall pos s c k r,
    run pos s c k = Some r ->
    exists s1 s2 c', s = (s1 ++ s2)%list /\ captures re pos s1 s2 c c'
                     /\ k (pos + length s1)%nat s2 c' = Some r.

(** ** package net/textproto and net/http *)

Definition is_lower (c : ascii) : bool := between 97 122 (N_of_ascii c).
Definition is_upper (c : ascii) : bool := between 65 90 (N_of_ascii c).
Definition is_digit (c : ascii) : bool := between 48 57 (N_of_ascii c).

Definition to_upper (c : ascii) : ascii :=
  if is_lower c then ascii_of_N (N_of_ascii c - 32) else c.
Definition to_lower (c : ascii) : ascii :=
  if is_upper c then ascii_of_N (N_of_ascii c + 32) else c.

(** The token characters of RFC 7230. *)
Definition validHeaderFieldByte (c : ascii) : bool :=
  is_lower c || is_upper c || is_digit c
  || existsb (Ascii.eqb c) (list_ascii_of_string "!#$%&'*+-.^_`|~").

Fixpoint canonical (upper : bool) (s : string) : string :=
  match s with
  | EmptyString => EmptyString
  | String c t =>
      let c' := if upper then to_upper c else to_lower c in
      String c' (canonical (Ascii.eqb c' "-") t)
  end.

(** textproto.CanonicalMIMEHeaderKey: first letter and letters after a
    hyphen in upper case, the others in lower case; a key with a byte that is
    not a token character is returned unchanged. *)
Definition CanonicalMIMEHeaderKey (s : string) : string :=
  if forallb validHeaderFieldByte (list_ascii_of_string s) then canonical true s
  else s.

(** http.Header: map[string][]string. *)
Definition Header := gmap string (list string).

(** Header.Get: the first value stored under the canonical form of [key],
    the empty string when there is none. *)
Definition Header_Get (h : Header) (key : string) : string :=
  match h !! CanonicalMIMEHeaderKey key with
  | Some (v :: _) => v
  | _ => ""
  end.

(** Header.Set: the value replaces whatever is stored under the canonical
    form of [key]. *)
Definition Header_Set (h : Header) (key value : string) : Header :=
  <[CanonicalMIMEHeaderKey key := [value]]> h.

(** An io.Reader by what reading it to the end gives: the bytes read and the
    error, if any, that stopped the reading. *)
Record Reader := { data : string; failure : option error }.

(** io.ReadAll: the bytes and the error; the reader is left drained. *)
Definition io_ReadAll (r : Reader) : (string * option error) * Reader :=
  ((data r, failure r), {| data := ""; failure := failure r |}).

(** io.NopCloser(bytes.NewBuffer(b)). *)
Definition bytes_NewBuffer (b : string) : Reader :=
  {| data := b; failure := None |}.

Record URL := { Scheme : string; URL_Host : string; Path : string; RawQuery : string }.

Record Request := {
  Method : string;
  Host : string;
  RequestURI : string;
  Request_URL : URL;
  Request_Header : Header;
  Body : Reader
}.

Definition set_Body (req : Request) (b : Reader) : Request :=
  {| Method := Method req; Host := Host req; RequestURI := RequestURI req;
     Request_URL := Request_URL req; Request_Header := Request_Header req;
     Body := b |}.

Definition set_Header (req : Request) (h : Header) : Request :=
  {| Method := Method req; Host := Host req; RequestURI := RequestURI req;
     Request_URL := Request_URL req; Request_Header := h; Body := Body req |}.

Definition http_MethodPost := "POST".
Definition http_StatusOK : N := 200.

Record Response := {
  Status : string;
  StatusCode : N;
  Response_Body : Reader
}.

(** ** lib/auth/iam_join.go *)

Definition expectedSTSIdentityRequestBody := "Action=GetCallerIdentity&Version=2011-06-15".
Definition stsHost := "sts.amazonaws.com".
Definition challengeHeaderKey := "X-Teleport-Challenge".
Definition normalizedChallengeHeaderKey := "x-teleport-challenge".
Definition authHeaderKey := "Authorization".

Definition signedHeadersRe_pattern :=
  "^AWS4-HMAC-SHA256 Credential=\S+, SignedHeaders=(\S+), Signature=\S+$".

(** regexp.MustCompile of the pattern above (it compiles, see
    [signedHeadersRe_compiles]). *)
Definition signedHeadersRe : Regexp_t :=
  Eval vm_compute in
    match regexp_Compile signedHeadersRe_pattern with
    | Returns (re, None) => re
    | _ => {| expr := OpEmptyMatch; numSubexp := 0 |}
    end.

Definition validateSTSIdentityRequest (req : Request) (challenge : string)
  : Request * option error :=
  if negb (Host req =? stsHost) then
    (req, trace_AccessDenied "sts identity request is for unknown host %q" [Host req])
  else if negb (Method req =? http_MethodPost) then
    (req, trace_AccessDenied
            "sts identity request method %q does not match expected method %q"
            [RequestURI req; http_MethodPost])
  else if negb (Header_Get (Request_Header req) challengeHeaderKey =? challenge) then
    (req, trace_AccessDenied
            "sts identity request does not include challenge header or it does not match" [])
  else
    let authHeader := Header_Get (Request_Header req) authHeaderKey in
    let matches := FindStringSubmatch signedHeadersRe authHeader in
    (* first match should be the full header, second is the SignedHeaders *)
    if (length matches <? 2)%nat then
      (req, trace_AccessDenied "sts identity request Authorization header is invalid" [])
    else
      let signedHeadersString := nth 1 matches "" in
      let signedHeaders := strings_Split signedHeadersString ";" in
      if negb (SliceContainsStr signedHeaders normalizedChallengeHeaderKey) then
        (req, trace_AccessDenied
                ("sts identity request auth header %q does not include "
                 +:+ normalizedChallengeHeaderKey +:+ " as a signed header")
                [authHeader])
      else
        (* read and replace request body *)
        let '((body, err), drained) := io_ReadAll (Body req) in
        match err with
        | Some _ => (set_Body req drained, trace_Wrap err)
        | None =>
            let req := set_Body req (bytes_NewBuffer body) in
            if negb (expectedSTSIdentityRequestBody =? body) then
              (req, trace_BadParameter "sts request body %q does not equal expected %q"
                      [body; expectedSTSIdentityRequestBody])
            else (req, None)
        end.

(** Sequencing of results of the regexp model. *)
Definition modelled_bind {A B} (x : modelled A) (f : A -> modelled B) : modelled B :=
  match x with
  | Returns a => f a
  | Beyond => Beyond
  end.

Record awsIdentity := { Account : string; Arn : string }.

Record getCallerIdentityResponse := {
  GetCallerIdentityResult : awsIdentity
}.

Record stsIdentityResponse := {
  GetCallerIdentityResponse : getCallerIdentityResponse
}.

(** arnMatches returns true if arn matches the pattern. pattern should be an
    AWS ARN which may include * to match any combination of zero or more
    characters and ? to match any single character. *)
Definition arnMatches (pattern arn : string) : modelled (bool * option error) :=
  let pattern := strings_ReplaceAll pattern "*" ".*" in
  let pattern := strings_ReplaceAll pattern "?" "." in
  let pattern := "^" +:+ pattern +:+ "$" in
  modelled_bind (regexp_MatchString pattern arn) (fun r =>
  Returns (fst r, trace_Wrap (snd r))).

(** Modelled from the spec: the types of api/types are not under src/.  A
    token rule carries the optional account and principal-pattern
    constraints, the empty string meaning unset; a provision token carries
    its join method and its ordered allow rules. *)
Record TokenRule := { AWSAccount : string; AWSARN : string }.

Record ProvisionToken := {
  JoinMethod : string;
  AllowRules : list TokenRule
}.

Definition JoinMethodIAM := "iam".

Fixpoint checkIAMAllowRules_range (identity : awsIdentity) (allowRules : list TokenRule)
  : modelled (option error) :=
  match allowRules with
  | [] => Returns (trace_AccessDenied "instance did not match any allow rules" [])
  | rule :: rest =>
      (* If this rule specifies an AWS account, the identity must match *)
      if (0 <? String.length (AWSAccount rule))%nat
         && negb (AWSAccount rule =? Account identity)
      then checkIAMAllowRules_range identity rest
      else if (0 <? String.length (AWSARN rule))%nat then
        modelled_bind (arnMatches (AWSARN rule) (Arn identity)) (fun r =>
        match snd r with
        | Some _ => Returns (trace_Wrap (snd r))
        | None =>
            if negb (fst r) then checkIAMAllowRules_range identity rest
            else Returns None
        end)
      else Returns None
  end.

Definition checkIAMAllowRules (identity : awsIdentity) (provisionToken : ProvisionToken)
  : modelled (option error) :=
  checkIAMAllowRules_range identity (AllowRules provisionToken).

(** *** The glob language of allow rules, as the design states it

    [*] matches zero or more characters, [?] exactly one, every other
    character only itself; the whole string has to match. *)
Fixpoint glob (p : list ascii) : list ascii -> bool :=
  match p with
  | [] => fun s => match s with [] => true | _ :: _ => false end
  | c :: p' =>
      if Ascii.eqb c "*" then
        fix star (s : list ascii) : bool :=
          glob p' s || match s with [] => false | _ :: s' => star s' end
      else fun s =>
        match s with
        | [] => false
        | x :: s' => (Ascii.eqb c "?" || Ascii.eqb c x) && glob p' s'
        end
  end.

Definition glob_match (pattern s : string) : bool :=
  glob (list_ascii_of_string pattern) (list_ascii_of_string s).

(** ** encoding/base64: RawStdEncoding (standard alphabet, no padding) *)

Definition encodeStd :=
  "ABCDEFGHIJKLMNOPQRSTUVWXYZabcdefghijklmnopqrstuvwxyz0123456789+/".

Definition sextet (v : N) : ascii :=
  match String.get (N.to_nat (N.land v 63)) encodeStd with
  | Some c => c
  | None => "A"%char
  end.

Fixpoint base64_RawStdEncoding_Encode (src : string) : string :=
  match src with
  | EmptyString => EmptyString
  | String a EmptyString =>
      let v := N.shiftl (N_of_ascii a) 16 in
      String (sextet (N.shiftr v 18)) (String (sextet (N.shiftr v 12)) EmptyString)
  | String a (String b EmptyString) =>
      let v := N.lor (N.shiftl (N_of_ascii a) 16) (N.shiftl (N_of_ascii b) 8) in
      String (sextet (N.shiftr v 18)) (String (sextet (N.shiftr v 12))
        (String (sextet (N.shiftr v 6)) EmptyString))
  | String a (String b (String c rest)) =>
      let v := N.lor (N.shiftl (N_of_ascii a) 16)
                 (N.lor (N.shiftl (N_of_ascii b) 8) (N_of_ascii c)) in
      String (sextet (N.shiftr v 18)) (String (sextet (N.shiftr v 12))
        (String (sextet (N.shiftr v 6)) (String (sextet v)
          (base64_RawStdEncoding_Encode rest))))
  end.

(** The place of a character in the alphabet: the decoding table of the
    encoding. *)
Fixpoint index_from (n : N) (alphabet : string) (c : ascii) : N :=
  match alphabet with
  | EmptyString => 0
  | String x rest => if Ascii.eqb x c then n else index_from (N.succ n) rest c
  end.

Definition unsextet (c : ascii) : N := index_from 0 encodeStd c.

(** Decoding of unpadded text, four characters to three bytes; a last
    group of two or three characters gives one or two bytes.  The file
    does not decode; the decoder is here to state that the challenge
    keeps the bytes it was made from. *)
Fixpoint base64_RawStdEncoding_Decode (s : string) : string :=
  match s with
  | String c0 (String c1 EmptyString) =>
      String (ascii_of_N (N.lor (N.shiftl (unsextet c0) 2) (N.shiftr (unsextet c1) 4)))
             EmptyString
  | String c0 (String c1 (String c2 EmptyString)) =>
      String (ascii_of_N (N.lor (N.shiftl (unsextet c0) 2) (N.shiftr (unsextet c1) 4)))
        (String (ascii_of_N (N.lor (N.shiftl (N.land (unsextet c1) 15) 4)
                                   (N.shiftr (unsextet c2) 2)))
           EmptyString)
  | String c0 (String c1 (String c2 (String c3 rest))) =>
      String (ascii_of_N (N.lor (N.shiftl (unsextet c0) 2) (N.shiftr (unsextet c1) 4)))
        (String (ascii_of_N (N.lor (N.shiftl (N.land (unsextet c1) 15) 4)
                                   (N.shiftr (unsextet c2) 2)))
           (String (ascii_of_N (N.lor (N.shiftl (N.land (unsextet c2) 3) 6) (unsextet c3)))
              (base64_RawStdEncoding_Decode rest)))
  | _ => EmptyString
  end.

(** The 24 bits of a group of three bytes. *)
Definition group24 (a b c : ascii) : N :=
  N.lor (N.shiftl (N_of_ascii a) 16) (N.lor (N.shiftl (N_of_ascii b) 8) (N_of_ascii c)).

(** A buffer of [n] zero bytes after a read wrote [written] at its start. *)
Definition fill (n : nat) (written : string) : string :=
  string_of_list_ascii
    (take n (list_ascii_of_string written ++ replicate n zero)).

(** ** The collaborators and the handshake

    The token store, the certificate authority, the gRPC stream, the random
    source and the HTTP client act on the outside world.  The world is an
    abstract state [W] that every call of a collaborator may read and change;
    the code's calls are recorded, in order, in a log. *)

Inductive result (A : Type) : Type :=
| Ok (a : A)
| Err (e : error).
Arguments Ok {A} a.
Arguments Err {A} e.

(** Modelled from the spec: types.RegisterUsingTokenRequest of api/types is
    not under src/; only the fields this file reads or writes are kept, and
    HostID stands for the ones it passes on untouched. *)
Record RegisterUsingTokenRequest := {
  Token : string;
  HostID : string;
  RemoteAddr : string;
  STSIdentityRequest : string
}.

Definition set_RemoteAddr (req : RegisterUsingTokenRequest) (addr : string) :=
  {| Token := Token req; HostID := HostID req; RemoteAddr := addr;
     STSIdentityRequest := STSIdentityRequest req |}.

Section Handshake.

Context {W Certs : Type}.

(** proto.RegisterUsingIAMMethodResponse *)
Record RegisterUsingIAMMethodResponse := {
  Challenge : string;
  Certs_ : option Certs
}.

Inductive call :=
| CallRandRead (n : nat)
| CallSend (m : RegisterUsingIAMMethodResponse)
| CallRecv
| CallGetToken (name : string)
| CallDo (req : Request)
| CallRegisterUsingToken (req : RegisterUsingTokenRequest).

(** type httpClient interface *)
Record httpClient := {
  Do : Request -> W -> result Response * W
}.

(** type registerUsingIAMMethodServer interface; [peer_FromContext] is
    peer.FromContext(srv.Context()) followed by p.Addr.String(). *)
Record registerUsingIAMMethodServer := {
  Send : RegisterUsingIAMMethodResponse -> W -> option error * W;
  Recv : W -> result RegisterUsingTokenRequest * W;
  peer_FromContext : option string
}.

(** The auth server [a]: its token cache and certificate authority, and
    the library functions the file calls and takes as given. *)
Record Server := {
  GetToken : string -> W -> result ProvisionToken * W;
  RegisterUsingToken : RegisterUsingTokenRequest -> W -> result Certs * W;
  rand_Read : nat -> W -> (string * option error) * W;
  http_DefaultClient : httpClient;
  http_ReadRequest : string -> result Request;
  json_Unmarshal : string -> result stsIdentityResponse
}.

(** Computations: a world and a call log are threaded through; the result
    is [Beyond] when an allow rule is outside the regexp model. *)
Definition M (A : Type) : Type := W * list call -> modelled (A * (W * list call)).

Definition ret {A} (a : A) : M A := fun st => Returns (a, st).

Definition bind {A B} (x : M A) (f : A -> M B) : M B :=
  fun st => modelled_bind (x st) (fun r => f (fst r) (snd r)).

Definition lift {A} (x : modelled A) : M A :=
  fun st => modelled_bind x (fun a => Returns (a, st)).

(** A call of a collaborator: logged, then run on the world. *)
Definition perform {A} (c : call) (f : W -> A * W) : M A :=
  fun st => let r := f (fst st) in Returns (fst r, (snd r, (snd st ++ [c])%list)).

Notation "'let*' x ':=' c1 'in' c2" := (bind c1 (fun x => c2))
  (at level 10, x name, c1 at level 100, c2 at level 200).

Variable a : Server.

Definition parseSTSRequest (req : string) : result Request :=
  match http_ReadRequest a req with
  | Err err => Err (Wrap err)
  | Ok httpReq =>
      (* Unset RequestURI and set req.URL instead (necessary quirk of sending a
         request parsed by http.ReadRequest). Also, force https here. *)
      Ok {| Method := Method httpReq; Host := Host httpReq;
            RequestURI := "";
            Request_URL := {| Scheme := "https"; URL_Host := stsHost;
                              Path := ""; RawQuery := "" |};
            Request_Header := Request_Header httpReq;
            Body := Body httpReq |}
  end.

Definition zero_awsIdentity : awsIdentity := {| Account := ""; Arn := "" |}.

(** The context is not modelled: a cancelled call shows as an error of
    [Do]. *)
Definition executeSTSIdentityRequest (client : httpClient) (req : Request)
  : M (awsIdentity * option error) :=
  let identity := zero_awsIdentity in
  let* r := perform (CallDo req) (Do client req) in
  match r with
  | Err err => ret (identity, trace_Wrap (Some err))
  | Ok resp =>
      let '((body, err), _) := io_ReadAll (Response_Body resp) in
      match err with
      | Some _ => ret (identity, trace_Wrap err)
      | None =>
          if negb (StatusCode resp =? http_StatusOK)%N then
            ret (identity,
                 trace_AccessDenied "aws sts api returned status: %q body: %q"
                   [Status resp; body])
          else
            match json_Unmarshal a body with
            | Err err => ret (identity, trace_Wrap (Some err))
            | Ok identityResponse =>
                ret (GetCallerIdentityResult
                       (GetCallerIdentityResponse identityResponse), None)
            end
      end
  end.

Definition checkIAMRequest (client : httpClient) (challenge : string)
    (req : RegisterUsingTokenRequest) : M (option error) :=
  let tokenName := Token req in
  let* t := perform (CallGetToken tokenName) (GetToken a tokenName) in
  match t with
  | Err err => ret (trace_Wrap (Some err))
  | Ok provisionToken =>
      if negb (JoinMethod provisionToken =? JoinMethodIAM) then
        ret (trace_AccessDenied "this token does not support the IAM join method" [])
      else
        match parseSTSRequest (STSIdentityRequest req) with
        | Err err => ret (trace_Wrap (Some err))
        | Ok identityRequest =>
            match validateSTSIdentityRequest identityRequest challenge with
            | (_, Some err) => ret (trace_Wrap (Some err))
            | (identityRequest, None) =>
                let* r := executeSTSIdentityRequest client identityRequest in
                match snd r with
                | Some err => ret (trace_Wrap (Some err))
                | None =>
                    let* e := lift (checkIAMAllowRules (fst r) provisionToken) in
                    match e with
                    | Some err => ret (trace_Wrap (Some err))
                    | None => ret None
                    end
                end
            end
        end
  end.

Definition registerUsingIAMMethod (srv : registerUsingIAMMethodServer)
  : M (option error) :=
  match peer_FromContext srv with
  | None =>
      ret (trace_AccessDenied "failed to read peer information from gRPC context" [])
  | Some nodeAddress =>
      (* read 32 crypto-random bytes to generate the challenge *)
      let* rd := perform (CallRandRead 32) (rand_Read a 32) in
      match snd rd with
      | Some err => ret (trace_Wrap (Some err))
      | None =>
          let challengeRawBytes := fill 32 (fst rd) in
          (* encode the challenge to base64 so it can be sent in an HTTP header *)
          let challengeString := base64_RawStdEncoding_Encode challengeRawBytes in
          (* send the challenge to the node *)
          let m := {| Challenge := challengeString; Certs_ := None |} in
          let* e := perform (CallSend m) (Send srv m) in
          match e with
          | Some err => ret (trace_Wrap (Some err))
          | None =>
              let* rq := perform CallRecv (Recv srv) in
              match rq with
              | Err err => ret (trace_Wrap (Some err))
              | Ok req =>
                  let req := set_RemoteAddr req nodeAddress in
                  let* e := checkIAMRequest (http_DefaultClient a) challengeString req in
                  match e with
                  | Some err => ret (trace_Wrap (Some err))
                  | None =>
                      let* c := perform (CallRegisterUsingToken req) (RegisterUsingToken a req) in
                      match c with
                      | Err err => ret (trace_Wrap (Some err))
                      | Ok certs =>
                          let m := {| Challenge := ""; Certs_ := Some certs |} in
                          let* e := perform (CallSend m) (Send srv m) in
                          ret (trace_Wrap e)
                      end
                  end
              end
          end
      end
  end.

End Handshake.

Arguments RegisterUsingIAMMethodResponse : clear implicits.
Arguments call : clear implicits.
Arguments httpClient : clear implicits.
Arguments registerUsingIAMMethodServer : clear implicits.
Arguments Server : clear implicits.
Arguments M : clear implicits.

(** ** The node's side: createSignedSTSIdentityRequest

    The AWS SDK and net/http are collaborators.  [GetCallerIdentityRequest]
    stands for session.New, sts.New and the service's
    GetCallerIdentityRequest, and gives the HTTP request to be sent;
    [Sign] is req.Sign, which signs that request with the local
    credentials; [Request_Write] is HTTPRequest.Write into a buffer.  Their
    calls are logged. *)
Section Node.

Context {W : Type}.

Inductive sdk_call :=
| CallGetCallerIdentityRequest
| CallSign (req : Request)
| CallWrite (req : Request).

Record awsSDK := {
  GetCallerIdentityRequest : W -> Request * W;
  Sign : Request -> W -> (Request * option error) * W;
  Request_Write : Request -> W -> (string * option error) * W
}.

(** createSignedSTSIdentityRequest is called by the client and returns an
    sts:GetCallerIdentity request signed with the local AWS credentials *)
Definition createSignedSTSIdentityRequest (sdk : awsSDK) (challenge : string)
    (st : W * list sdk_call) : (option string * option error) * (W * list sdk_call) :=
  let '(w, log) := st in
  (* use the aws sdk to generate the request *)
  let '(req, w) := GetCallerIdentityRequest sdk w in
  let log := (log ++ [CallGetCallerIdentityRequest])%list in
  (* set challenge header *)
  let req := set_Header req (Header_Set (Request_Header req) "X-Teleport-Challenge" challenge) in
  (* request json for simpler parsing *)
  let req := set_Header req (Header_Set (Request_Header req) "accept" "application/json") in
  (* sign the request, including headers *)
  let '((signed, err), w) := Sign sdk req w in
  let log := (log ++ [CallSign req])%list in
  match err with
  | Some _ => ((None, trace_Wrap err), (w, log))
  | None =>
      (* write the signed HTTP request to a buffer *)
      let '((signedRequest, err), w) := Request_Write sdk signed w in
      let log := (log ++ [CallWrite signed])%list in
      match err with
      | Some _ => ((None, trace_Wrap err), (w, log))
      | None => ((Some signedRequest, None), (w, log))
      end
  end.

End Node.

Arguments sdk_call : clear implicits.
Arguments awsSDK : clear implicits.

(** ** The validator as the design states it: five checks, in order *)

Definition check_host (req : Request) : option error :=
  if Host req =? stsHost then None
  else trace_AccessDenied "sts identity request is for unknown host %q" [Host req].

Definition check_method (req : Request) : option error :=
  if Method req =? http_MethodPost then None
  else trace_AccessDenied
         "sts identity request method %q does not match expected method %q"
         [RequestURI req; http_MethodPost].

Definition check_challenge (req : Request) (challenge : string) : option error :=
  if Header_Get (Request_Header req) challengeHeaderKey =? challenge then None
  else trace_AccessDenied
         "sts identity request does not include challenge header or it does not match" [].

(** The Authorization header follows the grammar of [signedHeadersRe]. *)
Definition matches_grammar (authHeader : string) : bool :=
  (2 <=? length (FindStringSubmatch signedHeadersRe authHeader))%nat.

(** The header names of the SignedHeaders part. *)
Definition SignedHeaders (authHeader : string) : list string :=
  strings_Split (nth 1 (FindStringSubmatch signedHeadersRe authHeader) "") ";".

Definition check_signed_headers (req : Request) : option error :=
  let authHeader := Header_Get (Request_Header req) authHeaderKey in
  if negb (matches_grammar authHeader) then
    trace_AccessDenied "sts identity request Authorization header is invalid" []
  else if SliceContainsStr (SignedHeaders authHeader) normalizedChallengeHeaderKey then None
  else trace_AccessDenied
         ("sts identity request auth header %q does not include "
          +:+ normalizedChallengeHeaderKey +:+ " as a signed header")
         [authHeader].

Definition check_body (req : Request) : option error :=
  match failure (Body req) with
  | Some err => Some (Wrap err)
  | None =>
      if expectedSTSIdentityRequestBody =? data (Body req) then None
      else trace_BadParameter "sts request body %q does not equal expected %q"
             [data (Body req); expectedSTSIdentityRequestBody]
  end.

Fixpoint first_violation (checks : list (option error)) : option error :=
  match checks with
  | [] => None
  | Some err :: _ => Some err
  | None :: rest => first_violation rest
  end.

Definition validation_checks (req : Request) (challenge : string) : list (option error) :=
  [check_host req; check_method req; check_challenge req challenge;
   check_signed_headers req; check_body req].

(** *** The Authorization header as the wire contract states it *)

(** A run of literals in front of an expression. *)
Definition lits (l : list ascii) (k : Regexp) : Regexp :=
  fold_right (fun c acc => OpConcat (OpLiteral (N_of_ascii c)) acc) k l.

Definition auth_prefix := list_ascii_of_string "AWS4-HMAC-SHA256 Credential=".

Definition auth_signed := list_ascii_of_string ", SignedHeaders=".

Definition auth_signature := list_ascii_of_string ", Signature=".

(** Not one of the bytes \t \n \f \r and space. *)
Definition nonspace (c : ascii) : bool :=
  negb (existsb (Ascii.eqb c) ["009"; "010"; "012"; "013"; " "]%char).

(** A non-empty run of ASCII bytes without white space. *)
Definition token (l : list ascii) : Prop :=
  l <> [] /\ Forall (fun c => nonspace c = true) l.

(** Three tokens between literal separators, the second one captured: the
    form of signedHeadersRe. *)
Definition three_tokens (p m1 m2 : list ascii) : Regexp :=
  OpConcat OpBeginText
    (lits p
       (OpConcat (OpPlus perl_S)
          (lits m1
             (OpConcat (OpCapture 1 (OpPlus perl_S))
                (lits m2 (OpConcat (OpPlus perl_S) OpEndText)))))).

(** The Authorization header of the wire contract, as bytes. *)
Definition auth_header (x y z : list ascii) : list ascii :=
  (auth_prefix ++ x ++ auth_signed ++ y ++ auth_signature ++ z)%list.

(** Header names written one after the other with semicolons between them,
    as the signer lists the headers it signed. *)
Fixpoint join_names (names : list string) : string :=
  match names with
  | [] => ""
  | [name] => name
  | name :: rest => name +:+ String ";" (join_names rest)
  end.

(** A header name in such a list: not empty, without white space and
    without semicolon. *)
Definition header_name (name : string) : bool :=
  negb (name =? "")
  && forallb (fun c => nonspace c && negb (Ascii.eqb c ";")) (list_ascii_of_string name).



(** Equality of header names up to the case of ASCII letters. *)
Fixpoint lower (s : string) : string :=
  match s with
  | EmptyString => EmptyString
  | String c t => String (to_lower c) (lower t)
  end.

Definition same_name (x y : string) : Prop := lower x = lower y.

(** ** Allow rules as the design states them *)

Definition account_matches (identity : awsIdentity) (rule : TokenRule) : Prop :=
  AWSAccount rule = "" \/ AWSAccount rule = Account identity.

Definition principal_matches (identity : awsIdentity) (rule : TokenRule) : Prop :=
  AWSARN rule = "" \/ arnMatches (AWSARN rule) (Arn identity) = Returns (true, None).

Definition rule_matches (identity : awsIdentity) (rule : TokenRule) : Prop :=
  account_matches identity rule /\ principal_matches identity rule.

(** A rule the scan passes over: its account constraint fails, or its
    pattern was evaluated and does not match. *)
Definition rule_passed_over (identity : awsIdentity) (rule : TokenRule) : Prop :=
  (AWSAccount rule <> "" /\ AWSAccount rule <> Account identity)
  \/ (account_matches identity rule /\ AWSARN rule <> ""
      /\ arnMatches (AWSARN rule) (Arn identity) = Returns (false, None)).

(** A rule whose account constraint passes and whose pattern does not
    evaluate to a plain yes or no: the regexp package reported an error, or
    the pattern is outside the model. *)
Definition rule_undecided (identity : awsIdentity) (rule : TokenRule) : Prop :=
  account_matches identity rule /\ AWSARN rule <> ""
  /\ ((exists b e0, arnMatches (AWSARN rule) (Arn identity) = Returns (b, Some e0))
      \/ arnMatches (AWSARN rule) (Arn identity) = Beyond).

(** Whether the account constraint of a rule lets the identity through:
    unset, or equal to the identity's account. *)
Definition account_applies (identity : awsIdentity) (rule : TokenRule) : bool :=
  (AWSAccount rule =? "") || (AWSAccount rule =? Account identity).


(** The regular expression [arnMatches] hands to the regexp package. *)
Definition translated (pattern : string) : string :=
  "^" +:+ strings_ReplaceAll (strings_ReplaceAll pattern "*" ".*") "?" "." +:+ "$".

(** *** Patterns on which the translation is the glob language

    A pattern whose bytes are ASCII and, the two wildcards apart, none of
    the characters regexp.QuoteMeta escapes; a subject of ASCII characters
    without line feed. *)
Definition is_meta (r : rune) : bool :=
  existsb (N.eqb r) [92; 46; 43; 42; 63; 40; 41; 124; 91; 93; 123; 125; 94; 36]%N.

Definition is_ascii (c : ascii) : bool := (N_of_ascii c <? 128)%N.

Definition plain_byte (c : ascii) : bool :=
  is_ascii c && negb (is_meta (N_of_ascii c)).

Definition wildcard_pattern (p : string) : bool :=
  forallb (fun c => plain_byte c || Ascii.eqb c "*" || Ascii.eqb c "?")
          (list_ascii_of_string p).

Definition subject_byte (c : ascii) : bool := is_ascii c && negb (Ascii.eqb c "010").

Definition plain_subject (s : string) : bool :=
  forallb subject_byte (list_ascii_of_string s).

(** What the two replacements make of one byte of the pattern, as text, as
    runes and as the parsed expression. *)
Definition glob_bytes (c : ascii) : string :=
  if Ascii.eqb c "*" then ".*" else if Ascii.eqb c "?" then "." else String c "".

Fixpoint glob_regexp (p : string) : string :=
  match p with
  | EmptyString => EmptyString
  | String c t => glob_bytes c +:+ glob_regexp t
  end.

Definition glob_runes (c : ascii) : list rune :=
  if Ascii.eqb c "*" then [46; 42]%N
  else if Ascii.eqb c "?" then [46]%N
  else [N_of_ascii c].

Definition glob_item (c : ascii) : Regexp :=
  if Ascii.eqb c "*" then OpStar OpAnyCharNotNL
  else if Ascii.eqb c "?" then OpAnyCharNotNL
  else OpLiteral (N_of_ascii c).

Definition glob_body (p : list ascii) : Regexp :=
  fold_right (fun x acc => OpConcat x acc) OpEndText (map glob_item p).

(** Decoding ASCII text: one rune per byte. *)
Definition ascii_chunk (c : ascii) : chunk := (N_of_ascii c, String c "").

(** ** The handshake as the design states it: stages run in sequence, the
    first failure ends the attempt with that stage's error *)

Section Stages.

Context {W Certs : Type}.
Variable a : Server W Certs.













End Stages.






(** ** Test doubles

    Small collaborators in the manner of the package's tests, to run the
    code on concrete handshakes.  The world is the number of collaborator
    calls made so far; the fake wire format of a signed request is the
    challenge it is bound to, and the fake identity endpoint answers with
    the account as its body. *)
Module Fake.

Definition authorization (signedHeaders : string) : string :=
  "AWS4-HMAC-SHA256 Credential=AKIDEXAMPLE/20210801/us-east-1/sts/aws4_request, SignedHeaders="
  +:+ signedHeaders +:+ ", Signature=5d672d79c15b13162d9279b0855cfba6789a8edb4c82c400e06b5924a6f2b5d7".

Definition headers (challengeHeader : option string) (signedHeaders : string) : Header :=
  let h : Header := {[ "Authorization" := [authorization signedHeaders] ]} in
  match challengeHeader with
  | Some c => <[ "X-Teleport-Challenge" := [c] ]> h
  | None => h
  end.

Definition request (host method : string) (challengeHeader : option string)
    (signedHeaders : string) (body : Reader) : Request :=
  {| Method := method; Host := host; RequestURI := "/";
     Request_URL := {| Scheme := ""; URL_Host := ""; Path := "/"; RawQuery := "" |};
     Request_Header := headers challengeHeader signedHeaders;
     Body := body |}.

(** The request a well-behaved node sends for [challenge]. *)
Definition signed_request (challenge : string) : Request :=
  request stsHost "POST" (Some challenge) "accept;host;x-amz-date;x-teleport-challenge"
          (bytes_NewBuffer expectedSTSIdentityRequestBody).

Definition token1 : ProvisionToken :=
  {| JoinMethod := JoinMethodIAM;
     AllowRules := [ {| AWSAccount := "111111111111"; AWSARN := "" |} ] |}.

Definition random_bytes : string :=
  string_of_list_ascii (replicate 32 "r"%char).

Definition challenge : string :=
  Eval vm_compute in base64_RawStdEncoding_Encode (fill 32 random_bytes).

Definition client (status : string) (code : N) (body : Reader) : httpClient nat :=
  {| Do := fun _ w => (Ok {| Status := status; StatusCode := code;
                             Response_Body := body |}, S w) |}.

Definition server (account : string) : Server nat string :=
  {| GetToken := fun name w =>
       (if name =? "tok-1" then Ok token1
        else Err (Raw (External "provision token not found")), S w);
     RegisterUsingToken := fun _ w => (Ok "certs", S w);
     rand_Read := fun _ w => ((random_bytes, None), S w);
     http_DefaultClient := client "200 OK" 200 (bytes_NewBuffer account);
     http_ReadRequest := fun raw =>
       if raw =? "" then Err (Raw (External "malformed HTTP request"))
       else Ok (signed_request raw);
     json_Unmarshal := fun body =>
       if body =? "" then Err (Raw (External "unexpected end of JSON input"))
       else Ok {| GetCallerIdentityResponse :=
                    {| GetCallerIdentityResult :=
                         {| Account := body;
                            Arn := "arn:aws:sts::" +:+ body +:+ ":assumed-role/Node/i-1" |} |} |}
  |}.

Definition join_request : RegisterUsingTokenRequest :=
  {| Token := "tok-1"; HostID := "node-1"; RemoteAddr := "";
     STSIdentityRequest := challenge |}.

Definition stream : registerUsingIAMMethodServer nat string :=
  {| Send := fun _ w => (None, S w);
     Recv := fun w => (Ok join_request, S w);
     peer_FromContext := Some "10.0.0.7:3022" |}.

(** The request as the handshake passes it on, with the peer address. *)
Definition received_request : RegisterUsingTokenRequest :=
  set_RemoteAddr join_request "10.0.0.7:3022".

(** The result of a computation that is inside the regexp model. *)
Definition get {A} (default : A) (x : modelled A) : A :=
  match x with
  | Returns r => r
  | Beyond => default
  end.




(** A server that reads the request [r] from whatever bytes it is given. *)
Definition relay (r : Request) : Server nat string :=
  {| GetToken := GetToken (server "");
     RegisterUsingToken := RegisterUsingToken (server "");
     rand_Read := rand_Read (server "");
     http_DefaultClient := http_DefaultClient (server "");
     http_ReadRequest := fun _ => Ok r;
     json_Unmarshal := json_Unmarshal (server "") |}.

(** The request of a well-behaved node as the server forwards it: the URL
    forced, the RequestURI emptied. *)
Definition forwarded_request (challenge : string) : Request :=
  {| Method := "POST"; Host := stsHost; RequestURI := "";
     Request_URL := {| Scheme := "https"; URL_Host := stsHost; Path := ""; RawQuery := "" |};
     Request_Header := headers (Some challenge)
                         "accept;host;x-amz-date;x-teleport-challenge";
     Body := bytes_NewBuffer expectedSTSIdentityRequestBody |}.

End Fake.

(** * Properties *)

(** ** Error classes *)

Lemma IsAccessDenied_Wrap (e : error) :
  IsAccessDenied (Some (Wrap e)) = IsAccessDenied (Some e).
Proof. destruct e; reflexivity. Qed.


Lemma classes_distinct (err : option error) :
  IsBadParameter err = true -> IsAccessDenied err = false.
Proof.
  destruct err as [e|]; simpl; [|discriminate].
  destruct (error_kind e); congruence.
Qed.

(** ** The regexp model: the matcher decides the language *)

Lemma captures_matches re pos s rest c c' :
  captures re pos s rest c c' -> matches re pos s rest.
Proof. induction 1; econstructor; eassumption. Qed.

Lemma one_rune_tracks (re : Regexp) (ok : rune -> bool) :
  (forall r b pos rest c, ok r = true -> captures re pos [(r, b)] rest c c) ->
  tracks re (one_rune ok).
Proof.
  intros Hre pos s c k r. unfold one_rune.
  destruct s as [|[x b] s]; [discriminate|].
  destruct (ok x) eqn:E; [|discriminate]. intros Hk.
  exists [(x, b)], s, c. split; [reflexivity|]. split; [apply Hre; exact E|].
  cbn [length]. rewrite Nat.add_1_r. exact Hk.
Qed.

Lemma star_loop_tracks (sub : Regexp) (k : cont) :
  tracks sub (backtrack sub) ->
  forall n pos s c r,
    star_loop (backtrack sub) k n pos s c = Some r ->
    exists s1 s2 c', s = (s1 ++ s2)%list /\ captures (OpStar sub) pos s1 s2 c c'
                     /\ k (pos + length s1)%nat s2 c' = Some r.
Proof.
  intros Hsub. induction n as [|n IH]; intros pos s c r; cbn [star_loop].
  - intros Hk. exists [], s, c. split; [reflexivity|]. split; [constructor|].
    cbn [length]. rewrite Nat.add_0_r. exact Hk.
  - destruct (backtrack sub pos s c _) as [v|] eqn:Hbody.
    + intros [= ->]. apply Hsub in Hbody as (s1 & s2 & c1 & -> & Hm & Hk).
      destruct (pos <? pos + length s1)%nat; [|discriminate].
      apply IH in Hk as (s3 & s4 & c2 & -> & Hm2 & Hk).
      exists (s1 ++ s3)%list, s4, c2. split; [apply app_assoc|].
      split; [eapply CStarStep; eassumption|].
      rewrite length_app, Nat.add_assoc. exact Hk.
    + intros Hk. exists [], s, c. split; [reflexivity|]. split; [constructor|].
      cbn [length]. rewrite Nat.add_0_r. exact Hk.
Qed.

Lemma backtrack_tracks (re : Regexp) : tracks re (backtrack re).
Proof.
  induction re as [|x|ranges| | | |i sub IH|sub IH|sub IH|a IHa b IHb|a IHa b IHb].
  - intros pos s c k r Hk. cbn [backtrack] in Hk.
    exists [], s, c. split; [reflexivity|]. split; [constructor|].
    cbn [length]. rewrite Nat.add_0_r. exact Hk.
  - apply one_rune_tracks. intros r b pos rest c E. apply N.eqb_eq in E. subst. constructor.
  - apply one_rune_tracks. intros r b pos rest c E. constructor. exact E.
  - apply one_rune_tracks. intros r b pos rest c E. constructor.
    apply negb_true_iff. exact E.
  - intros pos s c k r Hk. cbn [backtrack] in Hk.
    destruct (pos =? 0)%nat eqn:E; [|discriminate]. apply Nat.eqb_eq in E. subst pos.
    exists [], s, c. split; [reflexivity|]. split; [constructor|exact Hk].
  - intros pos s c k r Hk. cbn [backtrack] in Hk.
    destruct s; [|discriminate].
    exists [], [], c. split; [reflexivity|]. split; [constructor|].
    cbn [length]. rewrite Nat.add_0_r. exact Hk.
  - intros pos s c k r Hk. cbn [backtrack] in Hk.
    apply IH in Hk as (s1 & s2 & c' & -> & Hm & Hk).
    exists s1, s2, (<[i := (pos, (pos + length s1)%nat)]> c').
    split; [reflexivity|]. split; [constructor; exact Hm|exact Hk].
  - intros pos s c k r Hk. cbn [backtrack] in Hk.
    exact (star_loop_tracks sub k IH _ _ _ _ _ Hk).
  - intros pos s c k r Hk. cbn [backtrack] in Hk.
    apply IH in Hk as (s1 & s2 & c1 & -> & Hm & Hk).
    apply (star_loop_tracks sub k IH) in Hk as (s3 & s4 & c2 & -> & Hm2 & Hk).
    exists (s1 ++ s3)%list, s4, c2. split; [apply app_assoc|].
    split; [eapply CPlus; eassumption|].
    rewrite length_app, Nat.add_assoc. exact Hk.
  - intros pos s c k r Hk. cbn [backtrack] in Hk.
    apply IHa in Hk as (s1 & s2 & c1 & -> & Hm & Hk).
    apply IHb in Hk as (s3 & s4 & c2 & -> & Hm2 & Hk).
    exists (s1 ++ s3)%list, s4, c2. split; [apply app_assoc|].
    split; [eapply CConcat; eassumption|].
    rewrite length_app, Nat.add_assoc. exact Hk.
  - intros pos s c k r Hk. cbn [backtrack] in Hk.
    destruct (backtrack a pos s c k) as [v|] eqn:Ha.
    + injection Hk as ->. apply IHa in Ha as (s1 & s2 & c1 & -> & Hm & Hk).
      exists s1, s2, c1. split; [reflexivity|]. split; [apply CAltL; exact Hm|exact Hk].
    + apply IHb in Hk as (s1 & s2 & c1 & -> & Hm & Hk).
      exists s1, s2, c1. split; [reflexivity|]. split; [apply CAltR; exact Hm|exact Hk].
Qed.

Lemma search_tracks (re : Regexp) (s : list chunk) :
  forall pos r,
    search re pos s = Some r ->
    exists pre mid post c',
      s = (pre ++ mid ++ post)%list
      /\ captures re (pos + length pre) mid post ∅ c'
      /\ r = <[0%nat := ((pos + length pre)%nat, (pos + length pre + length mid)%nat)]> c'.
Proof.
  induction s as [|x s IH]; intros pos r; cbn [search].
  - destruct (backtrack re pos [] ∅ _) as [v|] eqn:Hb; [|discriminate]. intros [= ->].
    apply backtrack_tracks in Hb as (s1 & s2 & c' & Hs & Hm & [= <-]).
    exists [], s1, s2, c'. cbn [app length]. rewrite Nat.add_0_r. tauto.
  - destruct (backtrack re pos (x :: s) ∅ _) as [v|] eqn:Hb.
    + intros [= ->]. apply backtrack_tracks in Hb as (s1 & s2 & c' & Hs & Hm & [= <-]).
      exists [], s1, s2, c'. cbn [app length]. rewrite Nat.add_0_r. tauto.
    + intros Hr. apply IH in Hr as (pre & mid & post & c' & -> & Hm & ->).
      exists (x :: pre), mid, post, c'. split; [reflexivity|].
      cbn [length]. rewrite !Nat.add_succ_r. tauto.
Qed.

Lemma search_sound (re : Regexp) (s : list chunk) (pos : nat) (r : caps) :
  search re pos s = Some r ->
  exists pre mid post,
    s = (pre ++ mid ++ post)%list /\ matches re (pos + length pre) mid post.
Proof.
  intros H. apply search_tracks in H as (pre & mid & post & c' & Hs & Hc & _).
  exists pre, mid, post. split; [exact Hs|]. eapply captures_matches. exact Hc.
Qed.

Lemma star_loop_stop (body : nat -> list chunk -> caps -> cont -> option caps)
    (k : cont) (n pos : nat) (s : list chunk) (c : caps) :
  (forall c', is_Some (k pos s c')) -> is_Some (star_loop body k n pos s c).
Proof.
  intros Hk. destruct n; cbn [star_loop]; [apply Hk|].
  destruct (body pos s c _); [eauto | apply Hk].
Qed.

Lemma one_rune_complete (ok : rune -> bool) (r : rune) (b : string) (pos : nat)
    (rest : list chunk) (c : caps) (k : cont) :
  ok r = true ->
  (forall c', is_Some (k (pos + 1)%nat rest c')) ->
  is_Some (one_rune ok pos ((r, b) :: rest) c k).
Proof.
  intros Hok Hk. cbn [one_rune]. rewrite Hok, <- Nat.add_1_r. apply Hk.
Qed.

(** A match is found by the matcher, whatever the capture registers, when
    the continuation accepts what follows it.  For an iteration this holds
    for any bound that is at least the number of runes left. *)
Lemma backtrack_complete_aux (re : Regexp) (pos : nat) (s1 s2 : list chunk) :
  matches re pos s1 s2 ->
  (forall c k, (forall c', is_Some (k (pos + length s1)%nat s2 c')) ->
               is_Some (backtrack re pos (s1 ++ s2) c k))
  /\ (forall sub, re = OpStar sub ->
      forall n c k, (length (s1 ++ s2) <= n)%nat ->
                    (forall c', is_Some (k (pos + length s1)%nat s2 c')) ->
                    is_Some (star_loop (backtrack sub) k n pos (s1 ++ s2) c)).
Proof.
  induction 1 as [pos rest|r b pos rest|ranges r b pos rest Hr|r b pos rest Hr
                 |rest|pos|i sub pos s rest Hm IH|sub pos rest
                 |sub pos s1 s2 rest Hm1 IH1 Hm2 IH2
                 |sub pos s1 s2 rest Hm1 IH1 Hm2 IH2
                 |a b pos s1 s2 rest Hm1 IH1 Hm2 IH2
                 |a b pos s rest Hm IH|a b pos s rest Hm IH].
  - split; [|discriminate]. intros c k Hk. cbn [backtrack app length] in *.
    rewrite Nat.add_0_r in Hk. apply Hk.
  - split; [|discriminate]. intros c k Hk. cbn [backtrack app length] in *.
    apply one_rune_complete; [apply N.eqb_refl | exact Hk].
  - split; [|discriminate]. intros c k Hk. cbn [backtrack app length] in *.
    apply one_rune_complete; [exact Hr | exact Hk].
  - split; [|discriminate]. intros c k Hk. cbn [backtrack app length] in *.
    apply one_rune_complete; [rewrite Hr; reflexivity | exact Hk].
  - split; [|discriminate]. intros c k Hk. cbn [backtrack app length Nat.eqb] in *.
    apply Hk.
  - split; [|discriminate]. intros c k Hk. cbn [backtrack app length] in *.
    rewrite Nat.add_0_r in Hk. apply Hk.
  - split; [|discriminate]. intros c k Hk. cbn [backtrack].
    apply (proj1 IH). intros c'. apply Hk.
  - assert (Hstop : forall n c k,
               (forall c', is_Some (k (pos + length (@nil chunk))%nat rest c')) ->
               is_Some (star_loop (backtrack sub) k n pos ([] ++ rest) c)).
    { intros n c k Hk. cbn [app length] in *. rewrite Nat.add_0_r in Hk.
      apply star_loop_stop. exact Hk. }
    split.
    + intros c k Hk. cbn [backtrack]. apply Hstop. exact Hk.
    + intros sub' [= <-] n c k _ Hk. apply Hstop. exact Hk.
  - assert (Hstep : forall n c k,
               (length ((s1 ++ s2) ++ rest) <= n)%nat ->
               (forall c', is_Some (k (pos + length (s1 ++ s2))%nat rest c')) ->
               is_Some (star_loop (backtrack sub) k n pos ((s1 ++ s2) ++ rest) c)).
    { intros n c k Hn Hk.
      assert (Hk2 : forall c', is_Some (k (pos + length s1 + length s2)%nat rest c')).
      { intros c'. rewrite <- Nat.add_assoc, <- length_app. apply Hk. }
      destruct s1 as [|x s1].
      - cbn [app length] in *. rewrite Nat.add_0_r in *.
        apply (proj2 IH2 sub eq_refl n c k Hn Hk2).
      - destruct n as [|n]; [cbn [app length] in Hn; lia|].
        cbn [star_loop].
        match goal with
        | |- is_Some (match ?b with Some v => Some v | None => _ end) =>
            assert (Hb : is_Some b); [|destruct Hb as [v ->]; eauto]
        end.
        rewrite <- app_assoc. apply (proj1 IH1). intros c'.
        replace (pos <? pos + length (x :: s1))%nat with true
          by (symmetry; apply Nat.ltb_lt; cbn [length]; lia).
        apply (proj2 IH2 sub eq_refl); [|exact Hk2].
        rewrite !length_app in Hn. rewrite length_app. cbn [length] in Hn. lia. }
    split.
    + intros c k Hk. cbn [backtrack]. apply Hstep; [lia | exact Hk].
    + intros sub' [= <-] n c k Hn Hk. apply Hstep; assumption.
  - split; [|discriminate]. intros c k Hk. cbn [backtrack].
    rewrite <- app_assoc. apply (proj1 IH1). intros c'.
    apply (proj2 IH2 sub eq_refl); [lia|].
    intros c''. rewrite <- Nat.add_assoc, <- length_app. apply Hk.
  - split; [|discriminate]. intros c k Hk. cbn [backtrack].
    rewrite <- app_assoc. apply (proj1 IH1). intros c'.
    apply (proj1 IH2). intros c''. rewrite <- Nat.add_assoc, <- length_app. apply Hk.
  - split; [|discriminate]. intros c k Hk. cbn [backtrack].
    destruct (proj1 IH c k Hk) as [v ->]. eauto.
  - split; [|discriminate]. intros c k Hk. cbn [backtrack].
    destruct (backtrack a pos (s ++ rest) c k); [eauto|]. apply (proj1 IH). exact Hk.
Qed.

Lemma search_complete (re : Regexp) (pre mid post : list chunk) :
  forall pos,
    matches re (pos + length pre) mid post ->
    is_Some (search re pos (pre ++ mid ++ post)).
Proof.
  induction pre as [|x pre IH]; intros pos Hm.
  - cbn [app length] in *. rewrite Nat.add_0_r in Hm.
    assert (Hb : is_Some (backtrack re pos (mid ++ post) ∅
                            (fun pos' _ c => Some (<[0%nat := (pos, pos')]> c))))
      by (apply (proj1 (backtrack_complete_aux _ _ _ _ Hm)); eauto).
    destruct Hb as [v Hb]. destruct (mid ++ post)%list; cbn [search]; rewrite Hb; eauto.
  - cbn [app search].
    destruct (backtrack re pos _ ∅ _); [eauto|].
    apply IH. cbn [length] in Hm. rewrite Nat.add_succ_r in Hm. exact Hm.
Qed.

(** The matcher decides the language: the expression matches somewhere in
    the text iff some infix of its runes is in the language at its
    position. *)
Theorem Regexp_MatchString_spec (re : Regexp_t) (s : string) :
  Regexp_MatchString re s = true
  <-> exists pre mid post,
        utf8_chunks s = (pre ++ mid ++ post)%list
        /\ matches (expr re) (length pre) mid post.
Proof.
  unfold Regexp_MatchString. split.
  - destruct (search (expr re) 0 (utf8_chunks s)) as [r|] eqn:Hs; [|discriminate].
    intros _. apply search_sound in Hs. exact Hs.
  - intros (pre & mid & post & -> & Hm).
    destruct (search_complete (expr re) pre mid post 0 Hm) as [r ->]. reflexivity.
Qed.

(** ** The validator *)

Lemma first_violation_app (pre post : list (option error)) :
  Forall (fun c => c = None) pre ->
  first_violation (pre ++ post)%list = first_violation post.
Proof.
  induction 1 as [|c pre Hc _ IH]; simpl; [reflexivity|].
  subst c. exact IH.
Qed.

(** The code's chain of early returns is the list of checks, tried in
    order. *)
Lemma validate_first_violation (req : Request) (challenge : string) :
  snd (validateSTSIdentityRequest req challenge)
  = first_violation (validation_checks req challenge).
Proof.
  unfold validateSTSIdentityRequest, validation_checks.
  cbn [first_violation].
  unfold check_host. destruct (Host req =? stsHost); cbn [negb snd]; [|reflexivity].
  unfold check_method.
  destruct (Method req =? http_MethodPost); cbn [negb snd]; [|reflexivity].
  unfold check_challenge.
  destruct (Header_Get (Request_Header req) challengeHeaderKey =? challenge);
    cbn [negb snd]; [|reflexivity].
  unfold check_signed_headers, matches_grammar, SignedHeaders.
  rewrite Nat.ltb_antisym.
  destruct (2 <=? _)%nat; cbn [negb snd]; [|reflexivity].
  destruct (SliceContainsStr _ _); cbn [negb snd]; [|reflexivity].
  unfold check_body, io_ReadAll. cbv beta iota zeta.
  destruct (failure (Body req)) as [e|]; cbn [snd trace_Wrap]; [reflexivity|].
  destruct (expectedSTSIdentityRequestBody =? data (Body req));
    cbn [negb snd]; reflexivity.
Qed.

Lemma check_host_denied (req : Request) (e : error) :
  check_host req = Some e -> IsAccessDenied (Some e) = true.
Proof.
  unfold check_host. destruct (Host req =? stsHost); [discriminate|].
  intros [= <-]. reflexivity.
Qed.

Lemma check_method_denied (req : Request) (e : error) :
  check_method req = Some e -> IsAccessDenied (Some e) = true.
Proof.
  unfold check_method. destruct (Method req =? http_MethodPost); [discriminate|].
  intros [= <-]. reflexivity.
Qed.

Lemma check_challenge_denied (req : Request) (c : string) (e : error) :
  check_challenge req c = Some e -> IsAccessDenied (Some e) = true.
Proof.
  unfold check_challenge. destruct (_ =? c); [discriminate|].
  intros [= <-]. reflexivity.
Qed.

Lemma check_signed_headers_denied (req : Request) (e : error) :
  check_signed_headers req = Some e -> IsAccessDenied (Some e) = true.
Proof.
  unfold check_signed_headers.
  destruct (matches_grammar _); simpl.
  - destruct (SliceContainsStr _ _); [discriminate|]. intros [= <-]. reflexivity.
  - intros [= <-]. reflexivity.
Qed.

Lemma signedHeadersRe_compiles :
  regexp_Compile signedHeadersRe_pattern = Returns (signedHeadersRe, None).
Proof. vm_compute. reflexivity. Qed.

Lemma Wrap_traced (e : error) : is_traced e = true -> Wrap e = e.
Proof. destruct e; [discriminate|reflexivity]. Qed.

Lemma Wrap_is_traced (e : error) : is_traced (Wrap e) = true.
Proof. reflexivity. Qed.

(** Every error of the validator comes from the trace package. *)
Lemma validate_error_traced (req : Request) (challenge : string) (e : error) :
  snd (validateSTSIdentityRequest req challenge) = Some e -> is_traced e = true.
Proof.
  rewrite validate_first_violation. cbn [validation_checks first_violation].
  unfold check_host, check_method, check_challenge, check_signed_headers, check_body.
  destruct (Host req =? stsHost); [|intros [= <-]; reflexivity].
  destruct (Method req =? http_MethodPost); [|intros [= <-]; reflexivity].
  destruct (_ =? challenge); [|intros [= <-]; reflexivity].
  destruct (matches_grammar _); cbn [negb]; [|intros [= <-]; reflexivity].
  destruct (SliceContainsStr _ _); [|intros [= <-]; reflexivity].
  destruct (failure (Body req)); [intros [= <-]; reflexivity|].
  destruct (_ =? data (Body req)); [discriminate|intros [= <-]; reflexivity].
Qed.

(** The SignedHeaders part of a header as the AWS SDK writes it. *)
Example SignedHeaders_example :
  matches_grammar (Fake.authorization "accept;host;x-amz-date;x-teleport-challenge") = true
  /\ SignedHeaders (Fake.authorization "accept;host;x-amz-date;x-teleport-challenge")
     = ["accept"; "host"; "x-amz-date"; "x-teleport-challenge"]
  /\ matches_grammar "AWS4-HMAC-SHA256 Credential=AKIDEXAMPLE, SignedHeaders=host" = false
  /\ matches_grammar "Bearer x-teleport-challenge" = false.
Proof. vm_compute. repeat split. Qed.

(** After a successful validation the request carries its body again, for
    the identity resolver to send. *)
Lemma validate_restores_body (req : Request) (challenge : string) :
  snd (validateSTSIdentityRequest req challenge) = None ->
  Body (fst (validateSTSIdentityRequest req challenge))
  = bytes_NewBuffer expectedSTSIdentityRequestBody.
Proof.
  unfold validateSTSIdentityRequest.
  destruct (negb (Host req =? stsHost)); [discriminate|].
  destruct (negb (Method req =? http_MethodPost)); [discriminate|].
  destruct (negb (_ =? challenge)); [discriminate|].
  destruct (length _ <? 2)%nat; [discriminate|].
  destruct (negb (SliceContainsStr _ _)); [discriminate|].
  unfold io_ReadAll. cbv beta iota zeta.
  destruct (failure (Body req)); [discriminate|].
  destruct (expectedSTSIdentityRequestBody =? data (Body req)) eqn:E;
    cbn [negb fst snd]; [|discriminate].
  intros _. apply String.eqb_eq in E. rewrite <- E. reflexivity.
Qed.

(** A violation among the first four checks is reported as AccessDenied,
    whatever the later checks would say. *)
Lemma denied_by_first_four (req : Request) (challenge : string) :
  check_host req <> None \/ check_method req <> None
  \/ check_challenge req challenge <> None \/ check_signed_headers req <> None ->
  IsAccessDenied (snd (validateSTSIdentityRequest req challenge)) = true.
Proof.
  rewrite validate_first_violation. unfold validation_checks. cbn [first_violation].
  destruct (check_host req) as [e|] eqn:Hh; [intros _; eauto using check_host_denied|].
  destruct (check_method req) as [e|] eqn:Hm; [intros _; eauto using check_method_denied|].
  destruct (check_challenge req challenge) as [e|] eqn:Hc;
    [intros _; eauto using check_challenge_denied|].
  destruct (check_signed_headers req) as [e|] eqn:Hs;
    [intros _; eauto using check_signed_headers_denied|].
  intros [H|[H|[H|H]]]; congruence.
Qed.

Lemma check_host_iff (req : Request) : check_host req = None <-> Host req = stsHost.
Proof.
  unfold check_host. destruct (Host req =? stsHost) eqn:E.
  - apply String.eqb_eq in E. tauto.
  - apply String.eqb_neq in E. split; [discriminate|contradiction].
Qed.

Lemma check_method_iff (req : Request) :
  check_method req = None <-> Method req = http_MethodPost.
Proof.
  unfold check_method. destruct (Method req =? http_MethodPost) eqn:E.
  - apply String.eqb_eq in E. tauto.
  - apply String.eqb_neq in E. split; [discriminate|contradiction].
Qed.

Lemma check_challenge_iff (req : Request) (c : string) :
  check_challenge req c = None <-> Header_Get (Request_Header req) challengeHeaderKey = c.
Proof.
  unfold check_challenge. destruct (_ =? c) eqn:E.
  - apply String.eqb_eq in E. tauto.
  - apply String.eqb_neq in E. split; [discriminate|contradiction].
Qed.

(** C7: the five checks run in the order host, method, challenge binding,
    signed-header set, body, and the error returned is the one of the first
    check that is violated: whatever checks pass before it and whatever the
    later ones would say.  In particular a request for another host, or
    with another method than POST, is denied with AccessDenied. *)
Theorem validate_checks_in_order (req : Request) (challenge : string) :
  snd (validateSTSIdentityRequest req challenge)
    = first_violation (validation_checks req challenge)
  /\ (forall pre e post,
        validation_checks req challenge = (pre ++ Some e :: post)%list ->
        Forall (fun c => c = None) pre ->
        snd (validateSTSIdentityRequest req challenge) = Some e)
  /\ (Host req <> stsHost ->
        snd (validateSTSIdentityRequest req challenge) = check_host req
        /\ IsAccessDenied (snd (validateSTSIdentityRequest req challenge)) = true)
  /\ (Host req = stsHost -> Method req <> http_MethodPost ->
        snd (validateSTSIdentityRequest req challenge) = check_method req
        /\ IsAccessDenied (snd (validateSTSIdentityRequest req challenge)) = true)
  /\ (Method req <> http_MethodPost ->
        IsAccessDenied (snd (validateSTSIdentityRequest req challenge)) = true).
Proof.
  split; [apply validate_first_violation|].
  split.
  { intros pre e post Hsplit Hpre.
    rewrite validate_first_violation, Hsplit, first_violation_app by assumption.
    reflexivity. }
  split.
  { intros Hhost. split.
    - rewrite validate_first_violation. cbn [validation_checks first_violation].
      destruct (check_host req) eqn:E; [reflexivity|].
      apply check_host_iff in E. contradiction.
    - apply denied_by_first_four. left. rewrite check_host_iff. exact Hhost. }
  split.
  { intros Hhost Hmethod. split.
    - rewrite validate_first_violation. cbn [validation_checks first_violation].
      apply check_host_iff in Hhost. rewrite Hhost.
      destruct (check_method req) eqn:E; [reflexivity|].
      apply check_method_iff in E. contradiction.
    - apply denied_by_first_four. right; left. rewrite check_method_iff. exact Hmethod. }
  intros Hmethod. apply denied_by_first_four. right; left.
  rewrite check_method_iff. exact Hmethod.
Qed.

(** A request for another host that also has the wrong method, an unsigned
    challenge header and a wrong body reports the host; one for the right
    host reports the method. *)
Lemma validate_checks_in_order_witness :
  let wrong_host := Fake.request "sts.example.org" "GET" (Some "abc") "host"
                      (bytes_NewBuffer "Action=DeleteEverything") in
  let wrong_method := Fake.request stsHost "GET" (Some "abc") "host"
                        (bytes_NewBuffer "Action=DeleteEverything") in
  (snd (validateSTSIdentityRequest wrong_host "xyz") = check_host wrong_host
   /\ IsAccessDenied (snd (validateSTSIdentityRequest wrong_host "xyz")) = true)
  /\ (snd (validateSTSIdentityRequest wrong_method "xyz") = check_method wrong_method
      /\ IsAccessDenied (snd (validateSTSIdentityRequest wrong_method "xyz")) = true)
  /\ snd (validateSTSIdentityRequest wrong_method "xyz")
     = trace_AccessDenied
         "sts identity request method %q does not match expected method %q"
         ["/"; "POST"].
Proof.
  intros wrong_host wrong_method. split; [|split].
  - apply (validate_checks_in_order wrong_host "xyz"). vm_compute. discriminate.
  - apply (validate_checks_in_order wrong_method "xyz").
    + reflexivity.
    + vm_compute. discriminate.
  - apply (proj1 (proj2 (validate_checks_in_order wrong_method "xyz"))
             [None] _ [check_challenge wrong_method "xyz";
                       check_signed_headers wrong_method;
                       check_body wrong_method]).
    + reflexivity.
    + repeat constructor.
Defined.

(** The challenge header is found under any spelling of its name. *)
Lemma to_lower_idem (c : ascii) : to_lower (to_lower c) = to_lower c.
Proof. destruct c as [[] [] [] [] [] [] [] []]; reflexivity. Qed.

Lemma to_upper_lower (c : ascii) : to_upper (to_lower c) = to_upper c.
Proof. destruct c as [[] [] [] [] [] [] [] []]; reflexivity. Qed.

Lemma valid_lower (c : ascii) : validHeaderFieldByte (to_lower c) = validHeaderFieldByte c.
Proof. destruct c as [[] [] [] [] [] [] [] []]; reflexivity. Qed.

Lemma canonical_lower (s : string) (upper : bool) :
  canonical upper (lower s) = canonical upper s.
Proof.
  revert upper. induction s as [|c s IH]; intros upper; [reflexivity|].
  cbn [lower canonical]. rewrite to_lower_idem, to_upper_lower, IH. reflexivity.
Qed.

Lemma valid_lower_string (s : string) :
  forallb validHeaderFieldByte (list_ascii_of_string (lower s))
  = forallb validHeaderFieldByte (list_ascii_of_string s).
Proof.
  induction s as [|c s IH]; [reflexivity|].
  cbn [lower list_ascii_of_string forallb]. rewrite valid_lower, IH. reflexivity.
Qed.

Lemma challenge_header_any_case (name : string) :
  same_name name challengeHeaderKey ->
  CanonicalMIMEHeaderKey name = challengeHeaderKey.
Proof.
  unfold same_name, CanonicalMIMEHeaderKey. intros H.
  rewrite <- valid_lower_string, <- canonical_lower, H. reflexivity.
Qed.






(** The challenge the handshake generates is never empty, so the handshake
    itself always denies a request without the header. *)
Lemma generated_challenge_nonempty (written : string) :
  base64_RawStdEncoding_Encode (fill 32 written) <> "".
Proof.
  assert (H : exists c t, fill 32 written = String c t).
  { unfold fill.
    assert (Hlen : length (take 32 (list_ascii_of_string written ++ replicate 32 zero)) = 32%nat)
      by (rewrite length_take, length_app, length_replicate; lia).
    destruct (take 32 (list_ascii_of_string written ++ replicate 32 zero)) as [|c t].
    - discriminate Hlen.
    - exists c, (string_of_list_ascii t). reflexivity. }
  destruct H as (c & t & ->).
  destruct t as [|c1 [|c2 t]]; discriminate.
Qed.

Lemma SliceContainsStr_In (slice : list string) (value : string) :
  SliceContainsStr slice value = true <-> In value slice.
Proof.
  unfold SliceContainsStr. rewrite existsb_exists. split.
  - intros (x & Hin & Heq). apply String.eqb_eq in Heq. subst x. exact Hin.
  - intros Hin. exists value. split; [exact Hin | apply String.eqb_refl].
Qed.

(** C2: when the Authorization header does not follow the grammar of
    signedHeadersRe, or its SignedHeaders list has no entry that is the
    challenge header name up to case, the request is denied with
    AccessDenied, whatever the challenge header itself holds. *)
Theorem unsigned_challenge_denied (req : Request) (challenge : string) :
  let authHeader := Header_Get (Request_Header req) authHeaderKey in
  matches_grammar authHeader = false
  \/ ~ (exists name, In name (SignedHeaders authHeader)
                     /\ same_name name challengeHeaderKey) ->
  IsAccessDenied (snd (validateSTSIdentityRequest req challenge)) = true.
Proof.
  intros authHeader H. apply denied_by_first_four. do 3 right.
  unfold check_signed_headers. fold authHeader.
  destruct H as [H|H].
  - rewrite H. discriminate.
  - destruct (matches_grammar authHeader); [|discriminate]. cbn [negb].
    destruct (SliceContainsStr _ _) eqn:E; [|discriminate].
    exfalso. apply H. exists normalizedChallengeHeaderKey. split.
    + apply SliceContainsStr_In. exact E.
    + reflexivity.
Qed.

(** The challenge header is there and equals the expected challenge, but it
    is not among the signed headers; and an Authorization header with a
    space inside its SignedHeaders part. *)
Lemma unsigned_challenge_denied_witness :
  IsAccessDenied
    (snd (validateSTSIdentityRequest
            (Fake.request stsHost "POST" (Some "bm9uY2UtMQ") "accept;host;x-amz-date"
               (bytes_NewBuffer expectedSTSIdentityRequestBody)) "bm9uY2UtMQ")) = true
  /\ IsAccessDenied
       (snd (validateSTSIdentityRequest
               (Fake.request stsHost "POST" (Some "bm9uY2UtMQ") "host; x-teleport-challenge"
                  (bytes_NewBuffer expectedSTSIdentityRequestBody)) "bm9uY2UtMQ")) = true.
Proof.
  split.
  - apply unsigned_challenge_denied. right.
    vm_compute. intros (name & Hin & Hname).
    destruct Hin as [<-|[<-|[<-|[]]]]; discriminate Hname.
  - apply unsigned_challenge_denied. left. vm_compute. reflexivity.
Defined.

(** C6 (as amended): for a request that passes the host, method, challenge
    and signed-header checks and whose body is read without error, the bytes
    read are compared with the expected payload as they are: equal bytes are
    accepted, anything else is a BadParameter error, which is not an
    AccessDenied error.  When reading the body fails, the read error is
    returned, wrapped. *)
Theorem body_compared_byte_for_byte (req : Request) (challenge : string) :
  check_host req = None -> check_method req = None ->
  check_challenge req challenge = None -> check_signed_headers req = None ->
  match failure (Body req) with
  | None =>
      (data (Body req) = expectedSTSIdentityRequestBody ->
       snd (validateSTSIdentityRequest req challenge) = None)
      /\ (data (Body req) <> expectedSTSIdentityRequestBody ->
          snd (validateSTSIdentityRequest req challenge)
          = trace_BadParameter "sts request body %q does not equal expected %q"
              [data (Body req); expectedSTSIdentityRequestBody]
          /\ IsBadParameter (snd (validateSTSIdentityRequest req challenge)) = true
          /\ IsAccessDenied (snd (validateSTSIdentityRequest req challenge)) = false)
  | Some err => snd (validateSTSIdentityRequest req challenge) = Some (Wrap err)
  end.
Proof.
  intros Hh Hm Hc Hs.
  rewrite validate_first_violation. cbn [validation_checks first_violation].
  rewrite Hh, Hm, Hc, Hs. unfold check_body.
  destruct (failure (Body req)) as [err|]; [reflexivity|].
  destruct (expectedSTSIdentityRequestBody =? data (Body req)) eqn:E.
  - apply String.eqb_eq in E. split; [reflexivity|]. intros Hne. congruence.
  - apply String.eqb_neq in E. split; [congruence|]. intros _. repeat split.
Qed.

(** A trailing line feed is a deviation: nothing is trimmed. *)
Lemma body_compared_byte_for_byte_witness :
  let req := Fake.request stsHost "POST" (Some "bm9uY2UtMQ") "host;x-teleport-challenge"
               (bytes_NewBuffer (expectedSTSIdentityRequestBody +:+ String "010" "")) in
  IsBadParameter (snd (validateSTSIdentityRequest req "bm9uY2UtMQ")) = true
  /\ IsAccessDenied (snd (validateSTSIdentityRequest req "bm9uY2UtMQ")) = false.
Proof.
  intros req.
  assert (H := body_compared_byte_for_byte req "bm9uY2UtMQ").
  cbn [failure Body req Fake.request bytes_NewBuffer] in H.
  apply H; try (vm_compute; reflexivity).
  vm_compute. discriminate.
Defined.

(** C6 as stated fails: a request that passes the four checks and whose body
    cannot be read to its end does not get a BadParameter error, although
    the bytes received differ from the expected payload. *)
Lemma unreadable_body_is_not_BadParameter :
  ~ (forall req challenge,
       check_host req = None -> check_method req = None ->
       check_challenge req challenge = None -> check_signed_headers req = None ->
       data (Body req) <> expectedSTSIdentityRequestBody ->
       IsBadParameter (snd (validateSTSIdentityRequest req challenge)) = true).
Proof.
  intros H.
  specialize (H (Fake.request stsHost "POST" (Some "bm9uY2UtMQ") "host;x-teleport-challenge"
                   {| data := "Action=GetCallerIdentity";
                      failure := Some (Raw (ReadError "unexpected EOF")) |})
                "bm9uY2UtMQ").
  assert (Hres : IsBadParameter
            (snd (validateSTSIdentityRequest
              (Fake.request stsHost "POST" (Some "bm9uY2UtMQ") "host;x-teleport-challenge"
                 {| data := "Action=GetCallerIdentity";
                    failure := Some (Raw (ReadError "unexpected EOF")) |})
              "bm9uY2UtMQ")) = false)
    by (vm_compute; reflexivity).
  rewrite H in Hres; try discriminate; vm_compute; reflexivity.
Qed.

(** ** Allow rules *)

Lemma length_positive (s : string) : (0 <? String.length s)%nat = true <-> s <> "".
Proof.
  destruct s; simpl; split; intros H; try discriminate; try reflexivity.
  exfalso. apply H. reflexivity.
Qed.

Lemma arnMatches_translated (pattern arn : string) :
  arnMatches pattern arn
  = modelled_bind (regexp_MatchString (translated pattern) arn)
      (fun r => Returns (fst r, trace_Wrap (snd r))).
Proof. reflexivity. Qed.

Lemma arnMatches_syntax_error (pattern arn code : string) :
  syntax_Parse (translated pattern) = ParseError code ->
  arnMatches pattern arn = Returns (false, Some (Traced (SyntaxError code))).
Proof.
  intros H. rewrite arnMatches_translated.
  unfold regexp_MatchString, regexp_Compile. rewrite H. reflexivity.
Qed.

Lemma account_guard (identity : awsIdentity) (rule : TokenRule) :
  (0 <? String.length (AWSAccount rule))%nat
  && negb (AWSAccount rule =? Account identity) = false
  <-> account_matches identity rule.
Proof.
  unfold account_matches.
  destruct (0 <? String.length (AWSAccount rule))%nat eqn:Hlen; cbn [andb].
  - apply length_positive in Hlen.
    destruct (AWSAccount rule =? Account identity) eqn:E; cbn [negb].
    + apply String.eqb_eq in E. tauto.
    + apply String.eqb_neq in E. split; [discriminate|]. intros [H|H]; contradiction.
  - split; [|reflexivity]. intros _. left.
    destruct (AWSAccount rule); [reflexivity|discriminate].
Qed.

Lemma passed_over_step (identity : awsIdentity) (rule : TokenRule) (rest : list TokenRule) :
  rule_passed_over identity rule ->
  checkIAMAllowRules_range identity (rule :: rest)
  = checkIAMAllowRules_range identity rest.
Proof.
  intros [[Hset Hne]|(Hacc & Harn & Hres)]; cbn [checkIAMAllowRules_range].
  - apply length_positive in Hset. apply String.eqb_neq in Hne.
    rewrite Hset, Hne. reflexivity.
  - apply account_guard in Hacc. rewrite Hacc.
    apply length_positive in Harn. rewrite Harn, Hres. reflexivity.
Qed.

Lemma matching_step (identity : awsIdentity) (rule : TokenRule) (rest : list TokenRule) :
  rule_matches identity rule ->
  checkIAMAllowRules_range identity (rule :: rest) = Returns None.
Proof.
  intros [Hacc Harn]. cbn [checkIAMAllowRules_range].
  apply account_guard in Hacc. rewrite Hacc.
  destruct Harn as [Harn|Harn].
  - rewrite Harn. reflexivity.
  - rewrite Harn. destruct (0 <? String.length (AWSARN rule))%nat; reflexivity.
Qed.


(** What the scan does with its first rule. *)
Lemma first_rule_cases (identity : awsIdentity) (rule : TokenRule) :
  rule_passed_over identity rule
  \/ rule_matches identity rule
  \/ rule_undecided identity rule.
Proof.
  destruct ((0 <? String.length (AWSAccount rule))%nat
            && negb (AWSAccount rule =? Account identity)) eqn:Hguard.
  { left. left. apply andb_true_iff in Hguard as [Hlen Hne].
    apply length_positive in Hlen. apply negb_true_iff, String.eqb_neq in Hne. tauto. }
  pose proof (proj1 (account_guard identity rule) Hguard) as Hacc.
  destruct (0 <? String.length (AWSARN rule))%nat eqn:Hlen.
  2:{ right; left. split; [exact Hacc|]. left.
      destruct (AWSARN rule); [reflexivity|discriminate]. }
  pose proof (proj1 (length_positive _) Hlen) as Hset.
  destruct (arnMatches (AWSARN rule) (Arn identity)) as [[b [e0|]]|] eqn:Hres.
  - right; right. repeat split; [exact Hacc|exact Hset|]. left. exists b, e0. exact Hres.
  - destruct b.
    + right; left. split; [exact Hacc|]. right. exact Hres.
    + left. right. tauto.
  - right; right. repeat split; [exact Hacc|exact Hset|]. right. exact Hres.
Qed.


Lemma all_passed_over_denied (identity : awsIdentity) (rules : list TokenRule) :
  Forall (rule_passed_over identity) rules ->
  checkIAMAllowRules_range identity rules
  = Returns (trace_AccessDenied "instance did not match any allow rules" []).
Proof.
  induction 1 as [|r rest Hp _ IH]; [reflexivity|].
  rewrite (passed_over_step _ _ _ Hp). exact IH.
Qed.










(** C3, on the claim's examples and where the code departs from it: the
    wildcards work as stated, but the other characters of the pattern are
    handed to the regexp package unescaped.  A dot matches any character, a
    vertical bar splits the pattern into alternatives that are anchored on
    one side only, a parenthesis without its partner is an error, and no
    wildcard matches a line feed. *)
Theorem arnMatches_unescaped_metacharacters :
  arnMatches "arn:aws:sts::*:assumed-role/Prod*/*"
             "arn:aws:sts::123:assumed-role/ProdWorker/i-abc" = Returns (true, None)
  /\ arnMatches "arn:aws:sts::*:assumed-role/Prod*/*"
                "arn:aws:sts::123:assumed-role/DevWorker/i-abc" = Returns (false, None)
  /\ (arnMatches "arn:aws:sts::123456789012:assumed-role/team.prod/*"
                 "arn:aws:sts::123456789012:assumed-role/teamXprod/i-1" = Returns (true, None)
      /\ glob_match "arn:aws:sts::123456789012:assumed-role/team.prod/*"
                    "arn:aws:sts::123456789012:assumed-role/teamXprod/i-1" = false)
  /\ (arnMatches "arn:aws:sts::1:assumed-role/a|arn:aws:sts::2:assumed-role/b"
                 "arn:aws:sts::1:assumed-role/a/then/anything" = Returns (true, None)
      /\ glob_match "arn:aws:sts::1:assumed-role/a|arn:aws:sts::2:assumed-role/b"
                    "arn:aws:sts::1:assumed-role/a/then/anything" = false)
  /\ (arnMatches "arn:aws:sts::1:assumed-role/(prod)/*"
                 "arn:aws:sts::1:assumed-role/(prod)/i-1" = Returns (false, None)
      /\ glob_match "arn:aws:sts::1:assumed-role/(prod)/*"
                    "arn:aws:sts::1:assumed-role/(prod)/i-1" = true)
  /\ (arnMatches "arn:aws:sts::1:assumed-role/(prod/*"
                 "arn:aws:sts::1:assumed-role/(prod/i-1"
      = Returns (false, Some (Traced (SyntaxError ErrMissingParen)))
      /\ glob_match "arn:aws:sts::1:assumed-role/(prod/*"
                    "arn:aws:sts::1:assumed-role/(prod/i-1" = true)
  /\ (arnMatches "*" (String "010" "") = Returns (false, None)
      /\ glob_match "*" (String "010" "") = true).
Proof. vm_compute. repeat split. Qed.

(** *** Where the translation is right *)

Lemma append_cons (c : ascii) (x y : string) : String c x +:+ y = String c (x +:+ y).
Proof. reflexivity. Qed.

Lemma append_assoc (x y z : string) : (x +:+ y) +:+ z = x +:+ (y +:+ z).
Proof.
  induction x as [|c x IH]; [reflexivity|].
  rewrite !append_cons, IH. reflexivity.
Qed.

Lemma list_ascii_app (x y : string) :
  list_ascii_of_string (x +:+ y)
  = (list_ascii_of_string x ++ list_ascii_of_string y)%list.
Proof.
  induction x as [|c x IH]; [reflexivity|].
  rewrite append_cons. cbn [list_ascii_of_string app]. rewrite IH. reflexivity.
Qed.

Lemma ReplaceAll_app (x y : string) (old : ascii) (new : string) :
  strings_ReplaceAll (x +:+ y) old new
  = strings_ReplaceAll x old new +:+ strings_ReplaceAll y old new.
Proof.
  induction x as [|c x IH]; [reflexivity|].
  rewrite append_cons. cbn [strings_ReplaceAll]. rewrite IH.
  destruct (Ascii.eqb c old); [|reflexivity].
  symmetry. apply append_assoc.
Qed.

Lemma translated_glob_regexp (p : string) :
  translated p = "^" +:+ glob_regexp p +:+ "$".
Proof.
  unfold translated. do 2 f_equal.
  induction p as [|c p IH]; [reflexivity|].
  cbn [strings_ReplaceAll glob_regexp]. unfold glob_bytes.
  destruct (Ascii.eqb c "*") eqn:Estar.
  - rewrite ReplaceAll_app, IH. reflexivity.
  - cbn [strings_ReplaceAll]. rewrite IH.
    destruct (Ascii.eqb c "?"); reflexivity.
Qed.

Lemma utf8_chunks_ascii (s : string) :
  forallb is_ascii (list_ascii_of_string s) = true ->
  utf8_chunks s = map ascii_chunk (list_ascii_of_string s).
Proof.
  induction s as [|c s IH]; [reflexivity|].
  cbn [list_ascii_of_string forallb map]. intros H.
  apply andb_true_iff in H as [Hc Hs].
  rewrite <- (IH Hs). unfold is_ascii in Hc.
  cbn [utf8_chunks]. rewrite Hc. reflexivity.
Qed.

Lemma utf8_ValidString_ascii (s : string) :
  forallb is_ascii (list_ascii_of_string s) = true -> utf8_ValidString s = true.
Proof.
  intros H. unfold utf8_ValidString. rewrite (utf8_chunks_ascii _ H).
  apply forallb_forall. intros ch Hin. apply in_map_iff in Hin as (c & <- & Hc).
  rewrite forallb_forall in H. specialize (H c Hc). unfold is_ascii in H.
  cbn [ascii_chunk fst snd]. apply negb_true_iff, andb_false_iff. left.
  apply N.eqb_neq. apply N.ltb_lt in H. unfold RuneError. lia.
Qed.

Lemma wildcard_pattern_cons (c : ascii) (p : string) :
  wildcard_pattern (String c p) = true ->
  (plain_byte c || Ascii.eqb c "*" || Ascii.eqb c "?") = true
  /\ wildcard_pattern p = true.
Proof. unfold wildcard_pattern. cbn [list_ascii_of_string forallb]. apply andb_true_iff. Qed.

Lemma glob_regexp_ascii (p : string) :
  wildcard_pattern p = true ->
  forallb is_ascii (list_ascii_of_string (glob_regexp p)) = true.
Proof.
  induction p as [|c p IH]; [reflexivity|]. intros H.
  apply wildcard_pattern_cons in H as [Hc Hp].
  cbn [glob_regexp]. rewrite list_ascii_app, forallb_app, (IH Hp), andb_true_r.
  unfold glob_bytes.
  destruct (Ascii.eqb c "*"); [reflexivity|].
  destruct (Ascii.eqb c "?"); [reflexivity|].
  rewrite !orb_false_r in Hc. unfold plain_byte in Hc.
  apply andb_true_iff in Hc as [Hc _]. cbn [list_ascii_of_string forallb].
  rewrite Hc. reflexivity.
Qed.

Lemma runes_ascii (s : string) :
  forallb is_ascii (list_ascii_of_string s) = true ->
  map fst (utf8_chunks s) = map N_of_ascii (list_ascii_of_string s).
Proof.
  intros H. rewrite (utf8_chunks_ascii _ H). rewrite List.map_map. reflexivity.
Qed.

Lemma glob_regexp_runes (p : string) :
  wildcard_pattern p = true ->
  map N_of_ascii (list_ascii_of_string (glob_regexp p))
  = flat_map glob_runes (list_ascii_of_string p).
Proof.
  induction p as [|c p IH]; [reflexivity|]. intros H.
  apply wildcard_pattern_cons in H as [_ Hp].
  cbn [glob_regexp list_ascii_of_string flat_map].
  rewrite list_ascii_app, !List.map_app. f_equal; [|exact (IH Hp)].
  unfold glob_bytes, glob_runes.
  destruct (Ascii.eqb c "*"); [reflexivity|].
  destruct (Ascii.eqb c "?"); reflexivity.
Qed.

Ltac numeric_runes :=
  change (rune_of "(") with 40%N; change (rune_of ")") with 41%N;
  change (rune_of "|") with 124%N; change (rune_of "^") with 94%N;
  change (rune_of "$") with 36%N; change (rune_of ".") with 46%N;
  change (rune_of "*") with 42%N; change (rune_of "+") with 43%N;
  change (rune_of "?") with 63%N; change (rune_of "[") with 91%N;
  change (rune_of "{") with 123%N; change (rune_of "S") with 83%N.

(** The parser on a rune that is not a metacharacter. *)
Lemma parse_loop_literal (r : rune) (t : list rune) (p : parser) :
  is_meta r = false ->
  parse_loop (r :: t) p = parse_loop t (push p (OpLiteral r)).
Proof.
  intros H. unfold is_meta in H. cbn [existsb] in H.
  repeat (apply orb_false_iff in H as [? H]).
  cbn [parse_loop]. numeric_runes.
  repeat match goal with
         | E : N.eqb r _ = false |- _ => rewrite ?E; clear E
         end.
  reflexivity.
Qed.

Lemma parse_loop_dot (t : list rune) (p : parser) :
  parse_loop (46%N :: t) p = parse_loop t (push p OpAnyCharNotNL).
Proof. reflexivity. Qed.

Lemma parse_loop_star (t : list rune) (alts0 : list Regexp) (sub : Regexp)
    (rest : list Regexp) (st : list (nat * frame)) (n : nat) :
  parse_loop (42%N :: t) (Parser (Frame alts0 (sub :: rest)) st n false)
  = parse_loop t (Parser (Frame alts0 (OpStar sub :: rest)) st n true).
Proof. reflexivity. Qed.

Lemma parse_glob (p : string) (items : list Regexp) (b : bool) :
  wildcard_pattern p = true ->
  parse_loop (flat_map glob_runes (list_ascii_of_string p) ++ [36%N])
             (Parser (Frame [] items) [] 0 b)
  = Parsed (concat (OpEndText :: rev (map glob_item (list_ascii_of_string p)) ++ items)) 0.
Proof.
  revert items b. induction p as [|c p IH]; intros items b H; [reflexivity|].
  apply wildcard_pattern_cons in H as [Hc Hp].
  cbn [list_ascii_of_string flat_map map rev].
  rewrite <- !app_assoc. cbn [app].
  unfold glob_runes, glob_item.
  destruct (Ascii.eqb c "*") eqn:Estar.
  { cbn [app]. rewrite parse_loop_dot. unfold push. cbn [top alts cur stack numCap].
    rewrite parse_loop_star. apply (IH _ _ Hp). }
  destruct (Ascii.eqb c "?") eqn:Equest.
  { cbn [app]. rewrite parse_loop_dot. apply (IH _ _ Hp). }
  rewrite !orb_false_r in Hc. unfold plain_byte in Hc.
  apply andb_true_iff in Hc as [_ Hc]. apply negb_true_iff in Hc.
  cbn [app]. rewrite (parse_loop_literal _ _ _ Hc). apply (IH _ _ Hp).
Qed.

Lemma concat_rev_items (l : list Regexp) (e : Regexp) :
  fold_left (fun acc x => OpConcat x acc) (rev l) e
  = fold_right (fun x acc => OpConcat x acc) e l.
Proof.
  induction l as [|x l IH]; [reflexivity|].
  cbn [rev fold_right]. rewrite fold_left_app. cbn [fold_left]. rewrite IH. reflexivity.
Qed.

Lemma syntax_Parse_translated (p : string) :
  wildcard_pattern p = true ->
  syntax_Parse (translated p)
  = Parsed (OpConcat OpBeginText (glob_body (list_ascii_of_string p))) 0.
Proof.
  intros Hp. rewrite translated_glob_regexp.
  assert (Hascii : forallb is_ascii
                     (list_ascii_of_string ("^" +:+ glob_regexp p +:+ "$")) = true).
  { rewrite !list_ascii_app, !forallb_app, (glob_regexp_ascii _ Hp). reflexivity. }
  unfold syntax_Parse.
  rewrite (utf8_ValidString_ascii _ Hascii), (runes_ascii _ Hascii).
  cbn [negb]. rewrite !list_ascii_app, !List.map_app.
  change (map N_of_ascii (list_ascii_of_string "^")) with [94%N].
  change (map N_of_ascii (list_ascii_of_string "$")) with [36%N].
  rewrite (glob_regexp_runes _ Hp). cbn [app].
  change (parse_loop (94%N :: ?t) ?st) with (parse_loop t (push st OpBeginText)).
  unfold push. cbn [top alts cur stack numCap].
  rewrite (parse_glob _ _ _ Hp).
  unfold concat. rewrite fold_left_app, concat_rev_items. cbn [fold_left].
  reflexivity.
Qed.

Lemma glob_star (p : list ascii) (l : list ascii) :
  glob ("*"%char :: p) l
  = glob p l || match l with [] => false | _ :: l' => glob ("*"%char :: p) l' end.
Proof. destruct l; reflexivity. Qed.

Lemma N_of_ascii_eqb (c x : ascii) : (N_of_ascii c =? N_of_ascii x)%N = Ascii.eqb c x.
Proof.
  destruct (Ascii.eqb c x) eqn:E.
  - apply Ascii.eqb_eq in E. subst. apply N.eqb_refl.
  - apply N.eqb_neq. intros H. apply Ascii.eqb_neq in E. apply E.
    rewrite <- (ascii_N_embedding c), <- (ascii_N_embedding x), H. reflexivity.
Qed.

Lemma any_step (x : ascii) (s : list chunk) (pos : nat) (c : caps) (k : cont) :
  Ascii.eqb x "010" = false ->
  backtrack OpAnyCharNotNL pos (ascii_chunk x :: s) c k = k (S pos) s c.
Proof.
  intros H. cbn [backtrack one_rune ascii_chunk].
  change 10%N with (N_of_ascii "010"). rewrite N_of_ascii_eqb, H. reflexivity.
Qed.

Lemma literal_step (a x : ascii) (s : list chunk) (pos : nat) (c : caps) (k : cont) :
  backtrack (OpLiteral (N_of_ascii a)) pos (ascii_chunk x :: s) c k
  = if Ascii.eqb a x then k (S pos) s c else None.
Proof. cbn [backtrack one_rune ascii_chunk]. rewrite N_of_ascii_eqb. reflexivity. Qed.

Lemma star_any (K : cont) (k : cont) (c : caps) (good : list ascii -> bool) (l : list ascii) :
  forallb subject_byte l = true ->
  (forall pos l', forallb subject_byte l' = true ->
                  K pos (map ascii_chunk l') c
                  = if good l' then k (pos + length l')%nat [] c else None) ->
  forall pos,
    star_loop (backtrack OpAnyCharNotNL) K (length l) pos (map ascii_chunk l) c
    = if (fix star (s : list ascii) : bool :=
            good s || match s with [] => false | _ :: s' => star s' end) l
      then k (pos + length l)%nat [] c else None.
Proof.
  intros Hl HK. induction l as [|x l IH]; intros pos.
  - pose proof (HK pos [] eq_refl) as H0. cbn [map length] in H0.
    cbn [length star_loop map]. rewrite H0, orb_false_r. reflexivity.
  - pose proof (HK pos (x :: l) Hl) as H0. cbn [map length] in H0.
    cbn [forallb] in Hl. apply andb_true_iff in Hl as [Hx Hl].
    unfold subject_byte in Hx. apply andb_true_iff in Hx as [_ Hx].
    apply negb_true_iff in Hx.
    cbn [length map star_loop]. rewrite (any_step _ _ _ _ _ Hx).
    replace (pos <? S pos)%nat with true by (symmetry; apply Nat.ltb_lt; lia).
    rewrite (IH Hl (S pos)), H0.
    rewrite Nat.add_succ_r. cbn [Nat.add].
    destruct ((fix star (s : list ascii) : bool :=
                 good s || match s with [] => false | _ :: s' => star s' end) l);
      destruct (good (x :: l)); cbn [orb];
      destruct (k (S (pos + length l)) [] c); reflexivity.
Qed.

Lemma glob_body_run (p : list ascii) (k : cont) (c : caps) :
  forallb (fun a => plain_byte a || Ascii.eqb a "*" || Ascii.eqb a "?") p = true ->
  forall (l : list ascii) (pos : nat),
    forallb subject_byte l = true ->
    backtrack (glob_body p) pos (map ascii_chunk l) c k
    = if glob p l then k (pos + length l)%nat [] c else None.
Proof.
  induction p as [|a p IH]; intros Hp l pos Hl.
  - destruct l; cbn [glob_body map fold_right backtrack glob length].
    + rewrite Nat.add_0_r. reflexivity.
    + reflexivity.
  - cbn [forallb] in Hp. apply andb_true_iff in Hp as [Ha Hp].
    specialize (IH Hp).
    change (glob_body (a :: p)) with (OpConcat (glob_item a) (glob_body p)).
    cbn [backtrack]. unfold glob_item.
    destruct (Ascii.eqb a "*") eqn:Estar.
    { apply Ascii.eqb_eq in Estar. subst a.
      cbn [backtrack]. rewrite length_map.
      rewrite (star_any _ k c (glob p) l Hl).
      - destruct l; reflexivity.
      - intros pos' l' Hl'. apply IH. exact Hl'. }
    assert (Hglob : glob (a :: p) l
                    = match l with
                      | [] => false
                      | x :: l' => (Ascii.eqb a "?" || Ascii.eqb a x) && glob p l'
                      end).
    { cbn [glob]. rewrite Estar. reflexivity. }
    rewrite Hglob. clear Hglob.
    destruct l as [|x l]; [destruct (Ascii.eqb a "?"); reflexivity|].
    cbn [forallb] in Hl. apply andb_true_iff in Hl as [Hx Hl].
    unfold subject_byte in Hx. apply andb_true_iff in Hx as [_ Hx].
    apply negb_true_iff in Hx.
    cbn [map length]. rewrite Nat.add_succ_r.
    destruct (Ascii.eqb a "?") eqn:Equest.
    + rewrite (any_step _ _ _ _ _ Hx), (IH l (S pos) Hl). reflexivity.
    + rewrite literal_step.
      destruct (Ascii.eqb a x); [|reflexivity].
      rewrite (IH l (S pos) Hl). reflexivity.
Qed.

Lemma search_anchored (re : Regexp) (s : list chunk) (pos : nat) :
  search (OpConcat OpBeginText re) (S pos) s = None.
Proof.
  revert pos. induction s as [|x s IH]; intros pos; cbn [search backtrack Nat.eqb].
  - reflexivity.
  - apply IH.
Qed.

(** The expression of a wildcard pattern decides the glob language on
    subjects of ASCII characters without line feed. *)
Lemma glob_body_decides (pattern arn : string) :
  wildcard_pattern pattern = true ->
  plain_subject arn = true ->
  Regexp_MatchString
    {| expr := OpConcat OpBeginText (glob_body (list_ascii_of_string pattern));
       numSubexp := 0 |} arn
  = glob_match pattern arn.
Proof.
  intros Hp Hs. unfold Regexp_MatchString. cbn [expr].
  assert (Hascii : forallb is_ascii (list_ascii_of_string arn) = true).
  { unfold plain_subject in Hs. rewrite forallb_forall in Hs.
    apply forallb_forall. intros x Hx. specialize (Hs x Hx).
    apply andb_true_iff in Hs. tauto. }
  rewrite (utf8_chunks_ascii _ Hascii).
  unfold glob_match. unfold plain_subject in Hs. clear Hascii.
  destruct (list_ascii_of_string arn) as [|x l].
  - cbn [map search backtrack Nat.eqb].
    rewrite (glob_body_run _ _ _ Hp [] 0 eq_refl).
    destruct (glob (list_ascii_of_string pattern) []); reflexivity.
  - cbn [map search]. rewrite search_anchored.
    cbn [backtrack Nat.eqb].
    pose proof (glob_body_run _ (fun pos' _ c => Some (<[0%nat := (0%nat, pos')]> c)) ∅
                  Hp (x :: l) 0 Hs) as H.
    cbn [map] in H. rewrite H.
    destruct (glob (list_ascii_of_string pattern) (x :: l)); reflexivity.
Qed.

(** X5: on a pattern whose only special characters are the two wildcards,
    and a subject of ASCII characters without line feed, arnMatches is the
    glob matcher: [*] matches any run of characters, [?] any one character,
    every other character itself, over the whole subject, and no error is
    returned. *)
Theorem arnMatches_glob (pattern arn : string) :
  wildcard_pattern pattern = true ->
  plain_subject arn = true ->
  arnMatches pattern arn = Returns (glob_match pattern arn, None).
Proof.
  intros Hp Hs.
  rewrite arnMatches_translated.
  unfold regexp_MatchString, regexp_Compile.
  rewrite (syntax_Parse_translated _ Hp). cbn [modelled_bind fst snd trace_Wrap].
  do 2 f_equal. apply glob_body_decides; assumption.
Qed.

(** A pattern with both wildcards. *)
Lemma arnMatches_glob_witness :
  arnMatches "arn:aws:sts::*:assumed-role/Node-??/i-*"
             "arn:aws:sts::123456789012:assumed-role/Node-eu/i-0abc"
  = Returns (glob_match "arn:aws:sts::*:assumed-role/Node-??/i-*"
                        "arn:aws:sts::123456789012:assumed-role/Node-eu/i-0abc", None).
Proof. apply arnMatches_glob; vm_compute; reflexivity. Defined.

(** *** The grammar of the Authorization header *)

Lemma numSubexp_signedHeadersRe : numSubexp signedHeadersRe = 1%nat.
Proof. reflexivity. Qed.

Lemma in_class_S (c : ascii) :
  in_class [(0, 8); (11, 11); (14, 31); (33, 1114111)]%N (N_of_ascii c) = nonspace c.
Proof. destruct c as [[] [] [] [] [] [] [] []]; reflexivity. Qed.

Lemma inv_concat a b pos s rest c c2 :
  captures (OpConcat a b) pos s rest c c2 ->
  exists s1 s2 c1, s = (s1 ++ s2)%list /\ captures a pos s1 (s2 ++ rest) c c1
                   /\ captures b (pos + length s1) s2 rest c1 c2.
Proof. inversion 1; subst. eauto 7. Qed.

Lemma inv_literal r pos s rest c c' :
  captures (OpLiteral r) pos s rest c c' -> exists b, s = [(r, b)] /\ c' = c.
Proof. inversion 1; subst. eauto. Qed.

Lemma inv_capture i sub pos s rest c c' :
  captures (OpCapture i sub) pos s rest c c' ->
  exists c1, captures sub pos s rest c c1 /\ c' = <[i := (pos, (pos + length s)%nat)]> c1.
Proof. inversion 1; subst. eauto. Qed.

Lemma inv_begin pos s rest c c' :
  captures OpBeginText pos s rest c c' -> pos = 0%nat /\ s = [] /\ c' = c.
Proof. inversion 1; subst. tauto. Qed.

Lemma inv_end pos s rest c c' :
  captures OpEndText pos s rest c c' -> s = [] /\ rest = [] /\ c' = c.
Proof. inversion 1; subst. tauto. Qed.

Lemma inv_star_class ranges pos s rest c c' :
  captures (OpStar (OpCharClass ranges)) pos s rest c c' ->
  Forall (fun ch : chunk => in_class ranges (fst ch) = true) s /\ c' = c.
Proof.
  remember (OpStar (OpCharClass ranges)) as re eqn:Hre.
  induction 1; try discriminate Hre.
  - split; [constructor|reflexivity].
  - injection Hre as ->.
    match goal with H : captures (OpCharClass _) _ _ _ _ _ |- _ => inversion H; subst end.
    destruct (IHcaptures2 eq_refl) as [Hall ->].
    split; [|reflexivity]. constructor; assumption.
Qed.

Lemma inv_plus_class ranges pos s rest c c' :
  captures (OpPlus (OpCharClass ranges)) pos s rest c c' ->
  s <> [] /\ Forall (fun ch : chunk => in_class ranges (fst ch) = true) s /\ c' = c.
Proof.
  inversion 1; subst.
  match goal with H : captures (OpCharClass _) _ _ _ _ _ |- _ => inversion H; subst end.
  match goal with H : captures (OpStar _) _ _ _ _ _ |- _ =>
    apply inv_star_class in H as [Hall ->] end.
  split; [discriminate|]. split; [constructor; assumption|reflexivity].
Qed.

Lemma inv_lits l k pos s rest c c' :
  captures (lits l k) pos s rest c c' ->
  exists s1 s2, s = (s1 ++ s2)%list /\ map fst s1 = map N_of_ascii l
                /\ captures k (pos + length l) s2 rest c c'.
Proof.
  revert pos s c. induction l as [|x l IH]; intros pos s c H; cbn [lits fold_right] in H.
  - exists [], s. cbn [length]. rewrite Nat.add_0_r. tauto.
  - apply inv_concat in H as (s1 & s2 & c1 & -> & Hl & Hk).
    apply inv_literal in Hl as (b & -> & ->).
    apply IH in Hk as (s3 & s4 & -> & Hmap & Hk).
    exists ((N_of_ascii x, b) :: s3), s4. split; [reflexivity|].
    split; [cbn [map fst]; rewrite Hmap; reflexivity|].
    cbn [length] in *.
    replace (pos + S (length l))%nat with (pos + 1 + length l)%nat by lia. exact Hk.
Qed.

(** Building matches. *)
Lemma lits_matches l k pos s rest :
  matches k (pos + length l) s rest ->
  matches (lits l k) pos (map ascii_chunk l ++ s) rest.
Proof.
  revert pos. induction l as [|x l IH]; intros pos H; cbn [lits fold_right map app length] in *.
  - rewrite Nat.add_0_r in H. exact H.
  - apply (MConcat _ _ pos [ascii_chunk x] (map ascii_chunk l ++ s)).
    + constructor.
    + apply IH. cbn [length].
      replace (pos + 1 + length l)%nat with (pos + S (length l))%nat by lia. exact H.
Qed.

Lemma star_class_matches ranges pos (s rest : list chunk) :
  Forall (fun ch : chunk => in_class ranges (fst ch) = true) s ->
  matches (OpStar (OpCharClass ranges)) pos s rest.
Proof.
  intros H. revert pos. induction H as [|[r b] s Hr _ IH]; intros pos; [constructor|].
  apply (MStarStep _ pos [(r, b)] s rest); [constructor; exact Hr | apply IH].
Qed.

Lemma plus_class_matches ranges pos (s rest : list chunk) :
  s <> [] ->
  Forall (fun ch : chunk => in_class ranges (fst ch) = true) s ->
  matches (OpPlus (OpCharClass ranges)) pos s rest.
Proof.
  intros Hne H. destruct H as [|[r b] s Hr Hs]; [contradiction|].
  apply (MPlus _ pos [(r, b)] s rest); [constructor; exact Hr|].
  apply star_class_matches. exact Hs.
Qed.

Lemma token_chunks (l : list ascii) :
  token l ->
  map ascii_chunk l <> []
  /\ Forall (fun ch : chunk => in_class [(0, 8); (11, 11); (14, 31); (33, 1114111)]%N
                                 (fst ch) = true) (map ascii_chunk l).
Proof.
  intros [Hne Hall]. split; [destruct l; [contradiction|discriminate]|].
  apply Forall_map. eapply Forall_impl; [exact Hall|].
  intros c Hc. cbn [ascii_chunk fst compose]. rewrite in_class_S. exact Hc.
Qed.

Lemma chunks_token (l : list ascii) :
  map ascii_chunk l <> [] ->
  Forall (fun ch : chunk => in_class [(0, 8); (11, 11); (14, 31); (33, 1114111)]%N
                              (fst ch) = true) (map ascii_chunk l) ->
  token l.
Proof.
  intros Hne Hall. split; [destruct l; [contradiction|discriminate]|].
  apply Forall_map in Hall. eapply Forall_impl; [exact Hall|].
  intros c Hc. cbn [ascii_chunk fst compose] in Hc. rewrite in_class_S in Hc. exact Hc.
Qed.

Lemma signedHeadersRe_three_tokens :
  expr signedHeadersRe = three_tokens auth_prefix auth_signed auth_signature.
Proof. reflexivity. Qed.

Lemma three_tokens_matches (p m1 m2 x y z : list ascii) :
  token x -> token y -> token z ->
  matches (three_tokens p m1 m2) 0
          (map ascii_chunk (p ++ x ++ m1 ++ y ++ m2 ++ z)) [].
Proof.
  intros Hx Hy Hz. unfold three_tokens.
  apply token_chunks in Hx as [Hx1 Hx2], Hy as [Hy1 Hy2], Hz as [Hz1 Hz2].
  rewrite !List.map_app.
  rewrite <- (app_nil_r (map ascii_chunk z)).
  apply (MConcat _ _ 0 [] _ []); [constructor|].
  apply lits_matches.
  apply MConcat; [apply plus_class_matches; assumption|].
  apply lits_matches.
  apply MConcat; [constructor; apply plus_class_matches; assumption|].
  apply lits_matches.
  apply MConcat; [apply plus_class_matches; assumption | constructor].
Qed.

Lemma map_N_of_ascii_inj (l l' : list ascii) :
  map N_of_ascii l = map N_of_ascii l' -> l = l'.
Proof.
  revert l'. induction l as [|c l IH]; intros [|c' l'] H; try discriminate; [reflexivity|].
  cbn [map] in H. injection H as Hc Hl. f_equal; [|apply IH; exact Hl].
  rewrite <- (ascii_N_embedding c), <- (ascii_N_embedding c'), Hc. reflexivity.
Qed.

Lemma chunks_of_literals (l lits0 : list ascii) (s : list chunk) :
  map ascii_chunk l = s -> map fst s = map N_of_ascii lits0 -> l = lits0.
Proof.
  intros <- H. rewrite List.map_map in H. cbn [ascii_chunk fst] in H.
  apply map_N_of_ascii_inj. exact H.
Qed.

(** What a successful search says about an ASCII text. *)
Lemma three_tokens_tracks (p m1 m2 l : list ascii) (r : caps) :
  search (three_tokens p m1 m2) 0 (map ascii_chunk l) = Some r ->
  exists x y z,
    l = (p ++ x ++ m1 ++ y ++ m2 ++ z)%list /\ token x /\ token y /\ token z
    /\ r !! 0%nat = Some (0%nat, length l)
    /\ r !! 1%nat = Some (length (p ++ x ++ m1),
                          length (p ++ x ++ m1) + length y)%nat.
Proof.
  intros Hs. apply search_tracks in Hs as (pre & mid & post & c' & Hl & Hc & ->).
  unfold three_tokens in Hc.
  apply inv_concat in Hc as (s0 & s1 & c0 & -> & Hb & Hc).
  apply inv_begin in Hb as (Hpre & -> & ->).
  assert (pre = []) as -> by (destruct pre; [reflexivity|discriminate]).
  cbn [app length Nat.add] in *.
  apply inv_lits in Hc as (sP & s2 & -> & HP & Hc).
  apply inv_concat in Hc as (sx & s3 & c1 & -> & Hx & Hc).
  apply inv_plus_class in Hx as (Hx1 & Hx2 & ->).
  apply inv_lits in Hc as (sM1 & s4 & -> & HM1 & Hc).
  apply inv_concat in Hc as (sy & s5 & c2 & -> & Hy & Hc).
  apply inv_capture in Hy as (c3 & Hy & ->).
  apply inv_plus_class in Hy as (Hy1 & Hy2 & ->).
  apply inv_lits in Hc as (sM2 & s6 & -> & HM2 & Hc).
  apply inv_concat in Hc as (sz & s7 & c4 & -> & Hz & Hc).
  apply inv_plus_class in Hz as (Hz1 & Hz2 & ->).
  apply inv_end in Hc as (-> & -> & ->).
  rewrite !app_nil_r in Hl.
  apply map_eq_app in Hl as (lP & l1 & -> & HlP & Hl).
  apply map_eq_app in Hl as (lx & l2 & -> & Hlx & Hl).
  apply map_eq_app in Hl as (lM1 & l3 & -> & HlM1 & Hl).
  apply map_eq_app in Hl as (ly & l4 & -> & Hly & Hl).
  apply map_eq_app in Hl as (lM2 & lz & -> & HlM2 & Hlz).
  pose proof (chunks_of_literals _ _ _ HlP HP) as ->.
  pose proof (chunks_of_literals _ _ _ HlM1 HM1) as ->.
  pose proof (chunks_of_literals _ _ _ HlM2 HM2) as ->.
  subst sP sx sM1 sy sM2 sz.
  exists lx, ly, lz. split; [reflexivity|].
  split; [apply chunks_token; assumption|].
  split; [apply chunks_token; assumption|].
  split; [apply chunks_token; assumption|].
  unfold caps in *.
  split.
  - rewrite lookup_insert_eq.
    rewrite !length_app, !length_map. apply f_equal. apply f_equal2; cbn [length]; lia.
  - rewrite lookup_insert_ne by discriminate. rewrite lookup_insert_eq.
    rewrite !length_app, !length_map. apply f_equal. apply f_equal2; cbn [length]; lia.
Qed.

(** A token ends where a comma followed by a space begins. *)
Lemma token_end_unique (u u' r r' : list ascii) :
  Forall (fun c => nonspace c = true) u ->
  Forall (fun c => nonspace c = true) u' ->
  (u ++ "," :: " " :: r = u' ++ "," :: " " :: r')%list%char ->
  u = u' /\ r = r'.
Proof.
  intros Hu. revert u'. induction Hu as [|a u Ha Hu IH]; intros u' Hu' H.
  - destruct Hu' as [|a' u' Ha' Hu']; cbn [app] in H.
    + injection H as ->. tauto.
    + injection H as <- H. destruct Hu' as [|b u' Hb _]; cbn [app] in H.
      * discriminate H.
      * injection H as <- _. discriminate Hb.
  - destruct Hu' as [|a' u' Ha' Hu']; cbn [app] in H.
    + injection H as -> H. destruct Hu as [|b u Hb _]; cbn [app] in H.
      * discriminate H.
      * injection H as -> _. discriminate Hb.
    + injection H as -> H. destruct (IH _ Hu' H) as [-> ->]. tauto.
Qed.

Lemma auth_header_unique (x y z x' y' z' : list ascii) :
  token x -> token y -> token x' -> token y' ->
  auth_header x y z = auth_header x' y' z' ->
  x = x' /\ y = y' /\ z = z'.
Proof.
  intros [_ Hx] [_ Hy] [_ Hx'] [_ Hy']. unfold auth_header. intros H.
  apply app_inv_head in H.
  change auth_signed with ("," :: " " :: list_ascii_of_string "SignedHeaders=")%char in H.
  cbn [app] in H.
  apply (token_end_unique _ _ _ _ Hx Hx') in H as [-> H].
  apply app_inv_head in H.
  change auth_signature with ("," :: " " :: list_ascii_of_string "Signature=")%char in H.
  cbn [app] in H.
  apply (token_end_unique _ _ _ _ Hy Hy') in H as [-> H].
  apply app_inv_head in H. tauto.
Qed.

Lemma bytes_of_ascii_chunks (l : list ascii) :
  fold_right (fun (c : chunk) acc => snd c +:+ acc) "" (map ascii_chunk l)
  = string_of_list_ascii l.
Proof. induction l as [|c l IH]; [reflexivity|]. cbn. rewrite IH. reflexivity. Qed.

Lemma slice_ascii (l : list ascii) (a b : nat) :
  slice (map ascii_chunk l) a b = string_of_list_ascii (take (b - a) (drop a l)).
Proof.
  unfold slice. rewrite List.skipn_map, List.firstn_map.
  apply bytes_of_ascii_chunks.
Qed.

(** An ASCII header made of the prefix and three tokens follows the
    grammar, and its SignedHeaders part is the second token. *)
Lemma signed_headers_of_tokens (h : string) (x y z : list ascii) :
  forallb is_ascii (list_ascii_of_string h) = true ->
  list_ascii_of_string h = auth_header x y z ->
  token x -> token y -> token z ->
  matches_grammar h = true
  /\ SignedHeaders h = strings_Split (string_of_list_ascii y) ";".
Proof.
  intros Hascii Hh Hx Hy Hz.
  unfold matches_grammar, SignedHeaders, FindStringSubmatch.
  rewrite (utf8_chunks_ascii _ Hascii), signedHeadersRe_three_tokens.
  change (numSubexp signedHeadersRe) with 1%nat.
  pose proof (three_tokens_matches auth_prefix auth_signed auth_signature
                x y z Hx Hy Hz) as Hm.
  pose proof (search_complete _ [] _ [] 0 Hm) as [r Hr].
  cbn [app] in Hr. rewrite app_nil_r in Hr.
  unfold auth_header in Hh. rewrite <- Hh in Hr. rewrite Hr.
  split; [reflexivity|].
  apply three_tokens_tracks in Hr as (x' & y' & z' & Hh' & Hx' & Hy' & Hz' & H0 & H1).
  assert (y' = y) as ->.
  { apply (auth_header_unique x' y' z' x y z); try assumption.
    unfold auth_header. rewrite <- Hh'. exact Hh. }
  cbn [seq map nth]. rewrite H1, slice_ascii, Hh'. do 2 f_equal.
  replace (length (auth_prefix ++ x' ++ auth_signed) + length y
           - length (auth_prefix ++ x' ++ auth_signed))%nat
    with (length y) by lia.
  assert (E : (auth_prefix ++ x' ++ auth_signed ++ y ++ auth_signature ++ z'
               = (auth_prefix ++ x' ++ auth_signed) ++ y ++ auth_signature ++ z')%list)
    by (rewrite <- !app_assoc; reflexivity).
  rewrite E, drop_app_length, take_app_length. reflexivity.
Qed.

(** X3: the grammar of the Authorization header, for ASCII headers: the
    header matches signedHeadersRe exactly when it is the fixed prefix, a
    token, the SignedHeaders separator, a token, the Signature separator and
    a token, a token being a non-empty run of bytes without white space;
    the signed headers are then the second token, split at the
    semicolons. *)
Theorem authorization_grammar (h : string) :
  forallb is_ascii (list_ascii_of_string h) = true ->
  (matches_grammar h = true
   <-> exists x y z, list_ascii_of_string h = auth_header x y z
                     /\ token x /\ token y /\ token z)
  /\ (forall x y z,
        list_ascii_of_string h = auth_header x y z ->
        token x -> token y -> token z ->
        SignedHeaders h = strings_Split (string_of_list_ascii y) ";").
Proof.
  intros Hascii. split.
  - split.
    + unfold matches_grammar, FindStringSubmatch.
      rewrite (utf8_chunks_ascii _ Hascii), signedHeadersRe_three_tokens.
      destruct (search _ 0 (map ascii_chunk (list_ascii_of_string h))) as [r|] eqn:Hs;
        [|discriminate].
      intros _.
      apply three_tokens_tracks in Hs as (x & y & z & Hh & Hx & Hy & Hz & _).
      exists x, y, z. tauto.
    + intros (x & y & z & Hh & Hx & Hy & Hz).
      apply (signed_headers_of_tokens h x y z); assumption.
  - intros x y z Hh Hx Hy Hz.
    apply (signed_headers_of_tokens h x y z); assumption.
Qed.

(** The header the AWS SDK writes in the end-to-end scenario. *)
Lemma authorization_grammar_witness :
  let h := Fake.authorization "accept;host;x-amz-date;x-teleport-challenge" in
  (matches_grammar h = true
   <-> exists x y z, list_ascii_of_string h = auth_header x y z
                     /\ token x /\ token y /\ token z)
  /\ (forall x y z,
        list_ascii_of_string h = auth_header x y z ->
        token x -> token y -> token z ->
        SignedHeaders h = strings_Split (string_of_list_ascii y) ";").
Proof.
  intros h. apply (authorization_grammar h). vm_compute. reflexivity.
Defined.

(** ** Parsing, identity resolution and the handshake *)

Section HandshakeProperties.

Context {W Certs : Type}.
Variable a : Server W Certs.



(** C9 (as amended): for a response whose body is read without error,
    a status other than 200 gives AccessDenied with the status line and
    the body as arguments; with status 200 the body is decoded and the
    identity of GetCallerIdentityResponse.GetCallerIdentityResult is
    returned, or, when decoding fails, the decoding error, wrapped, and no
    identity.  When reading the body fails the read error is returned,
    wrapped, whatever the status. *)
Theorem identity_resolution (client : httpClient W) (req : Request) (w w' : W)
    (log : list (call Certs)) (resp : Response) :
  Do client req w = (Ok resp, w') ->
  exists out,
    executeSTSIdentityRequest a client req (w, log)
    = Returns (out, (w', (log ++ [CallDo req])%list))
    /\ match failure (Response_Body resp) with
       | Some err => out = (zero_awsIdentity, Some (Wrap err))
       | None =>
           (StatusCode resp <> http_StatusOK ->
            out = (zero_awsIdentity,
                   trace_AccessDenied "aws sts api returned status: %q body: %q"
                     [Status resp; data (Response_Body resp)])
            /\ IsAccessDenied (snd out) = true)
           /\ (StatusCode resp = http_StatusOK ->
               match json_Unmarshal a (data (Response_Body resp)) with
               | Ok identityResponse =>
                   out = (GetCallerIdentityResult
                            (GetCallerIdentityResponse identityResponse), None)
               | Err err => out = (zero_awsIdentity, Some (Wrap err))
               end)
       end.
Proof.
  intros HDo.
  unfold executeSTSIdentityRequest, bind, perform, ret.
  cbn [fst snd modelled_bind]. rewrite HDo. cbn [fst snd].
  unfold io_ReadAll. cbv beta iota zeta.
  destruct (failure (Response_Body resp)) as [err|].
  { eexists. split; reflexivity. }
  destruct (StatusCode resp =? http_StatusOK)%N eqn:E; cbn [negb].
  - apply N.eqb_eq in E.
    destruct (json_Unmarshal a (data (Response_Body resp))) as [ir|err];
      eexists; (split; [reflexivity|]); (split; [congruence|]); intros _;
      reflexivity.
  - apply N.eqb_neq in E. eexists. split; [reflexivity|].
    split; [|congruence]. intros _. split; reflexivity.
Qed.










End HandshakeProperties.


(** A 403 answer of the identity endpoint. *)
Lemma identity_resolution_witness :
  exists out,
    executeSTSIdentityRequest (Fake.server "111111111111")
      (Fake.client "403 Forbidden" 403 (bytes_NewBuffer "<ErrorResponse/>"))
      (Fake.signed_request Fake.challenge) (0, [])
    = Returns (out, (1, [CallDo (Fake.signed_request Fake.challenge)]))
    /\ out = (zero_awsIdentity,
              trace_AccessDenied "aws sts api returned status: %q body: %q"
                ["403 Forbidden"; "<ErrorResponse/>"])
    /\ IsAccessDenied (snd out) = true.
Proof.
  destruct (identity_resolution (Fake.server "111111111111")
              (Fake.client "403 Forbidden" 403 (bytes_NewBuffer "<ErrorResponse/>"))
              (Fake.signed_request Fake.challenge) 0 1 []
              {| Status := "403 Forbidden"; StatusCode := 403;
                 Response_Body := bytes_NewBuffer "<ErrorResponse/>" |}
              eq_refl) as (out & Hrun & Hcase).
  exists out. split; [exact Hrun|].
  apply (proj1 Hcase). discriminate.
Defined.

(** C9 as stated fails: a response with status 500 whose body cannot be read
    gives the read error, wrapped, which is not AccessDenied. *)
Lemma unreadable_response_is_not_AccessDenied :
  ~ (forall (client : httpClient nat) req w w' (log : list (call string)) resp,
       Do client req w = (Ok resp, w') ->
       StatusCode resp <> http_StatusOK ->
       exists out st,
         executeSTSIdentityRequest (Fake.server "111111111111") client req (w, log)
         = Returns (out, st)
         /\ IsAccessDenied (snd out) = true).
Proof.
  intros H.
  destruct (H (Fake.client "500 Internal Server Error" 500
                 {| data := "<ErrorRespo";
                    failure := Some (Raw (ReadError "connection reset by peer")) |})
              (Fake.signed_request Fake.challenge) 0 1 []
              {| Status := "500 Internal Server Error"; StatusCode := 500;
                 Response_Body :=
                   {| data := "<ErrorRespo";
                      failure := Some (Raw (ReadError "connection reset by peer")) |} |}
              eq_refl ltac:(discriminate))
    as (out & st & Hrun & Hden).
  vm_compute in Hrun. injection Hrun as <- <-. discriminate Hden.
Qed.

(** * Further properties *)

(** ** The validator: acceptance, the body, the signed headers *)

Lemma check_signed_headers_iff (req : Request) :
  check_signed_headers req = None
  <-> matches_grammar (Header_Get (Request_Header req) authHeaderKey) = true
      /\ In normalizedChallengeHeaderKey
            (SignedHeaders (Header_Get (Request_Header req) authHeaderKey)).
Proof.
  unfold check_signed_headers. rewrite <- SliceContainsStr_In.
  destruct (matches_grammar _); cbn [negb].
  - destruct (SliceContainsStr _ _); split; try tauto; try discriminate.
    intros [_ H]. discriminate H.
  - split; [discriminate|]. intros [H _]. discriminate H.
Qed.

Lemma check_body_iff (req : Request) :
  check_body req = None
  <-> failure (Body req) = None /\ data (Body req) = expectedSTSIdentityRequestBody.
Proof.
  unfold check_body. destruct (failure (Body req)) as [e|].
  - split; [discriminate|]. intros [H _]. discriminate H.
  - destruct (expectedSTSIdentityRequestBody =? data (Body req)) eqn:E.
    + apply String.eqb_eq in E. split; [intros _; split; congruence | reflexivity].
    + apply String.eqb_neq in E. split; [discriminate|]. intros [_ H]. congruence.
Qed.

(** X1: validateSTSIdentityRequest accepts a request exactly when all of
    this holds: the host is sts.amazonaws.com, the method is POST, the
    challenge header holds the expected challenge, the Authorization header
    follows the grammar of signedHeadersRe and has x-teleport-challenge, in
    this very spelling, among its signed headers, and the body is read
    without error and is the expected payload. *)
Theorem validate_accepts_iff (req : Request) (challenge : string) :
  snd (validateSTSIdentityRequest req challenge) = None
  <-> Host req = stsHost
      /\ Method req = http_MethodPost
      /\ Header_Get (Request_Header req) challengeHeaderKey = challenge
      /\ matches_grammar (Header_Get (Request_Header req) authHeaderKey) = true
      /\ In normalizedChallengeHeaderKey
            (SignedHeaders (Header_Get (Request_Header req) authHeaderKey))
      /\ failure (Body req) = None
      /\ data (Body req) = expectedSTSIdentityRequestBody.
Proof.
  rewrite validate_first_violation. cbn [validation_checks first_violation].
  pose proof (check_host_iff req) as Hh.
  pose proof (check_method_iff req) as Hm.
  pose proof (check_challenge_iff req challenge) as Hc.
  pose proof (check_signed_headers_iff req) as Hs.
  pose proof (check_body_iff req) as Hb.
  destruct (check_host req);
    [split; [discriminate|intros [H _]; apply Hh in H; discriminate H]|].
  destruct (check_method req);
    [split; [discriminate|intros (_ & H & _); apply Hm in H; discriminate H]|].
  destruct (check_challenge req challenge);
    [split; [discriminate|intros (_ & _ & H & _); apply Hc in H; discriminate H]|].
  destruct (check_signed_headers req);
    [split; [discriminate|
             intros (_ & _ & _ & H1 & H2 & _);
             pose proof (proj2 Hs (conj H1 H2)) as H; discriminate H]|].
  pose proof (proj1 Hh eq_refl). pose proof (proj1 Hm eq_refl).
  pose proof (proj1 Hc eq_refl). pose proof (proj1 Hs eq_refl).
  destruct (check_body req).
  - split; [discriminate|]. intros (_ & _ & _ & _ & _ & H5 & H6).
    pose proof (proj2 Hb (conj H5 H6)) as Hn. discriminate Hn.
  - pose proof (proj1 Hb eq_refl). tauto.
Qed.

(** X2: the validator changes nothing of the request but its body.  When
    one of the first four checks fails the body is not read and the request
    is left as it was.  When they pass and the body is read without error,
    the request carries a fresh buffer with the bytes that were read, also
    when they are not the expected ones: reading the body again gives the
    same bytes. *)
Theorem validate_replaces_body (req : Request) (challenge : string) :
  let out := fst (validateSTSIdentityRequest req challenge) in
  (Method out = Method req /\ Host out = Host req /\ RequestURI out = RequestURI req
   /\ Request_URL out = Request_URL req /\ Request_Header out = Request_Header req)
  /\ (first_violation [check_host req; check_method req; check_challenge req challenge;
                       check_signed_headers req] <> None ->
      out = req)
  /\ (first_violation [check_host req; check_method req; check_challenge req challenge;
                       check_signed_headers req] = None ->
      failure (Body req) = None ->
      Body out = bytes_NewBuffer (data (Body req))
      /\ fst (io_ReadAll (Body out)) = fst (io_ReadAll (Body req))).
Proof.
  unfold validateSTSIdentityRequest, check_host, check_method, check_challenge,
    check_signed_headers, matches_grammar, SignedHeaders.
  cbn [first_violation]. rewrite Nat.ltb_antisym.
  destruct (Host req =? stsHost); cbn [negb fst];
    [|split; [tauto|]; split; [reflexivity|discriminate]].
  destruct (Method req =? http_MethodPost); cbn [negb fst];
    [|split; [tauto|]; split; [reflexivity|discriminate]].
  destruct (Header_Get (Request_Header req) challengeHeaderKey =? challenge);
    cbn [negb fst]; [|split; [tauto|]; split; [reflexivity|discriminate]].
  destruct (2 <=? _)%nat; cbn [negb fst];
    [|split; [tauto|]; split; [reflexivity|discriminate]].
  destruct (SliceContainsStr _ _); cbn [negb fst];
    [|split; [tauto|]; split; [reflexivity|discriminate]].
  unfold io_ReadAll. cbv beta iota zeta.
  destruct (failure (Body req)) as [e|] eqn:Hf; cbn [fst].
  - split; [cbn; tauto|]. split; [congruence|discriminate].
  - destruct (negb (expectedSTSIdentityRequestBody =? data (Body req))); cbn [fst];
      (split; [cbn; tauto|]); (split; [congruence|]); intros _ _;
      (split; [reflexivity|]); cbn [set_Body Body bytes_NewBuffer fst data failure];
      reflexivity.
Qed.

Lemma validate_replaces_body_witness :
   let req := Fake.request stsHost "POST" (Some "bm9uY2UtMQ") "host;x-teleport-challenge"
               (bytes_NewBuffer "Action=GetCallerIdentity") in
   Body (fst (validateSTSIdentityRequest req "bm9uY2UtMQ"))
   = bytes_NewBuffer "Action=GetCallerIdentity"
   /\ fst (io_ReadAll (Body (fst (validateSTSIdentityRequest req "bm9uY2UtMQ"))))
      = ("Action=GetCallerIdentity", None).
Proof.
  intros req.
  apply (proj2 (proj2 (validate_replaces_body req "bm9uY2UtMQ"))).
  - vm_compute. reflexivity.
  - reflexivity.
Defined.

Lemma strings_Split_append (x s : string) (sep : ascii) :
  forallb (fun c => negb (Ascii.eqb c sep)) (list_ascii_of_string x) = true ->
  strings_Split (x +:+ s) sep
  = match strings_Split s sep with
    | p :: ps => (x +:+ p) :: ps
    | [] => [x]
    end.
Proof.
  induction x as [|c x IH]; intros Hx.
  - change ("" +:+ s) with s. destruct (strings_Split s sep) eqn:E; [|reflexivity].
    destruct s; cbn [strings_Split] in E; [discriminate E|].
    destruct (Ascii.eqb a sep); [discriminate E|].
    destruct (strings_Split s sep); discriminate E.
  - cbn [list_ascii_of_string forallb] in Hx. apply andb_true_iff in Hx as [Hc Hx].
    apply negb_true_iff in Hc.
    rewrite append_cons. cbn [strings_Split]. rewrite Hc, (IH Hx).
    destruct (strings_Split s sep); reflexivity.
Qed.

Lemma append_empty (x : string) : x +:+ "" = x.
Proof. induction x as [|c x IH]; [reflexivity|]. rewrite append_cons, IH. reflexivity. Qed.

Lemma header_name_no_semicolon (name : string) :
  header_name name = true ->
  forallb (fun c => negb (Ascii.eqb c ";")) (list_ascii_of_string name) = true.
Proof.
  unfold header_name. intros H. apply andb_true_iff in H as [_ H].
  rewrite forallb_forall in *. intros c Hc. specialize (H c Hc).
  apply andb_true_iff in H. tauto.
Qed.

(** Splitting at the semicolons gives back the names that were joined. *)
Lemma split_join_names (names : list string) :
  names <> [] ->
  forallb header_name names = true ->
  strings_Split (join_names names) ";" = names.
Proof.
  induction names as [|name rest IH]; intros Hne Hall; [congruence|].
  cbn [forallb] in Hall. apply andb_true_iff in Hall as [Hname Hall].
  pose proof (header_name_no_semicolon _ Hname) as Hsemi.
  destruct rest as [|next rest].
  - cbn [join_names]. rewrite <- (append_empty name) at 1.
    rewrite (strings_Split_append _ _ _ Hsemi). cbn [strings_Split].
    rewrite append_empty. reflexivity.
  - change (join_names (name :: next :: rest))
      with (name +:+ String ";" (join_names (next :: rest))).
    rewrite (strings_Split_append _ _ _ Hsemi).
    cbn [strings_Split]. change (Ascii.eqb ";" ";") with true. cbv iota.
    rewrite append_empty, IH; [reflexivity|discriminate|exact Hall].
Qed.

Lemma join_names_token (names : list string) :
  names <> [] ->
  forallb header_name names = true ->
  token (list_ascii_of_string (join_names names)).
Proof.
  intros Hne Hall. split.
  - destruct names as [|name rest]; [congruence|].
    cbn [forallb] in Hall. apply andb_true_iff in Hall as [Hname _].
    unfold header_name in Hname. apply andb_true_iff in Hname as [Hname _].
    destruct name as [|c name]; [discriminate Hname|].
    destruct rest; cbn [join_names]; [discriminate|].
    rewrite append_cons. discriminate.
  - clear Hne. induction names as [|name rest IH]; [constructor|].
    cbn [forallb] in Hall. apply andb_true_iff in Hall as [Hname Hall].
    assert (Hn : Forall (fun c => nonspace c = true) (list_ascii_of_string name)).
    { unfold header_name in Hname. apply andb_true_iff in Hname as [_ Hname].
      apply List.Forall_forall. rewrite forallb_forall in Hname.
      intros c Hc. specialize (Hname c Hc). apply andb_true_iff in Hname. tauto. }
    destruct rest as [|next rest]; [exact Hn|].
    change (join_names (name :: next :: rest))
      with (name +:+ String ";" (join_names (next :: rest))).
    rewrite list_ascii_app. apply Forall_app. split; [exact Hn|].
    cbn [list_ascii_of_string]. constructor; [reflexivity|]. apply IH. exact Hall.
Qed.

(** X4: the signed-header check reads back what the signer wrote.  For
    an ASCII Authorization header made of the fixed prefix, a credential
    token, the names of the signed headers joined by semicolons and a
    signature token, the header follows the grammar, the list the code
    extracts is the list of names, and the check passes exactly when
    x-teleport-challenge is one of the names. *)
Theorem signed_headers_recovered (req : Request) (x z : list ascii)
    (names : list string) :
  let h := Header_Get (Request_Header req) authHeaderKey in
  forallb is_ascii (list_ascii_of_string h) = true ->
  token x -> token z ->
  names <> [] -> forallb header_name names = true ->
  list_ascii_of_string h = auth_header x (list_ascii_of_string (join_names names)) z ->
  matches_grammar h = true
  /\ SignedHeaders h = names
  /\ (check_signed_headers req = None <-> In normalizedChallengeHeaderKey names).
Proof.
  intros h Hascii Hx Hz Hne Hall Hh.
  pose proof (join_names_token _ Hne Hall) as Hy.
  destruct (signed_headers_of_tokens h _ _ _ Hascii Hh Hx Hy Hz) as [Hm Hs].
  assert (Hn : SignedHeaders h = names).
  { rewrite Hs, string_of_list_ascii_of_string. apply split_join_names; assumption. }
  split; [exact Hm|]. split; [exact Hn|].
  rewrite check_signed_headers_iff. fold h. rewrite Hn. tauto.
Qed.

Lemma signed_headers_recovered_witness :
  let req := Fake.signed_request "bm9uY2UtMQ" in
  let h := Header_Get (Request_Header req) authHeaderKey in
  matches_grammar h = true
  /\ SignedHeaders h = ["accept"; "host"; "x-amz-date"; "x-teleport-challenge"]
  /\ (check_signed_headers req = None
      <-> In normalizedChallengeHeaderKey
             ["accept"; "host"; "x-amz-date"; "x-teleport-challenge"]).
Proof.
  intros req h.
  apply (signed_headers_recovered req
           (list_ascii_of_string "AKIDEXAMPLE/20210801/us-east-1/sts/aws4_request")
           (list_ascii_of_string
              "5d672d79c15b13162d9279b0855cfba6789a8edb4c82c400e06b5924a6f2b5d7")
           ["accept"; "host"; "x-amz-date"; "x-teleport-challenge"]).
  - vm_compute. reflexivity.
  - split; [discriminate|]. apply List.Forall_forall.
    apply forallb_forall. vm_compute. reflexivity.
  - split; [discriminate|]. apply List.Forall_forall.
    apply forallb_forall. vm_compute. reflexivity.
  - discriminate.
  - vm_compute. reflexivity.
  - vm_compute. reflexivity.
Defined.

(** ** Patterns of allow rules: errors, line feeds, patterns without wildcards *)

Lemma arnMatches_cases (pattern arn : string) :
  match syntax_Parse (translated pattern) with
  | Parsed re n =>
      arnMatches pattern arn
      = Returns (Regexp_MatchString {| expr := re; numSubexp := n |} arn, None)
  | ParseError code =>
      arnMatches pattern arn = Returns (false, Some (Traced (SyntaxError code)))
  | Unmodelled => arnMatches pattern arn = Beyond
  end.
Proof.
  rewrite arnMatches_translated. unfold regexp_MatchString, regexp_Compile.
  destruct (syntax_Parse (translated pattern)); reflexivity.
Qed.

Lemma arnMatches_error_kind (pattern arn : string) (b : bool) (e : error) :
  arnMatches pattern arn = Returns (b, Some e) ->
  b = false /\ exists code, syntax_Parse (translated pattern) = ParseError code
                            /\ e = Traced (SyntaxError code).
Proof.
  pose proof (arnMatches_cases pattern arn) as H.
  destruct (syntax_Parse (translated pattern)) as [re n|code|]; rewrite H;
    [discriminate| |discriminate].
  intros [= <- <-]. eauto.
Qed.

(** X8: an error of arnMatches is a property of the pattern alone.  When
    arnMatches returns an error, the match result is false, the error is
    the syntax error of the regexp package (wrapped), and the same pattern
    gives the same error on every other subject. *)
Theorem arnMatches_error_of_pattern (pattern arn : string) (b : bool) (e : error) :
  arnMatches pattern arn = Returns (b, Some e) ->
  b = false
  /\ (exists code, e = Traced (SyntaxError code))
  /\ (forall arn', arnMatches pattern arn' = Returns (false, Some e)).
Proof.
  intros H. apply arnMatches_error_kind in H as (-> & code & Hparse & ->).
  split; [reflexivity|]. split; [eauto|].
  intros arn'. apply arnMatches_syntax_error. exact Hparse.
Qed.

(** A pattern with a closing parenthesis too many. *)
Lemma arnMatches_error_of_pattern_witness :
  arnMatches "arn:aws:sts::*:assumed-role/Node)/*"
             "arn:aws:sts::123456789012:assumed-role/Node/i-0abc"
  = Returns (false, Some (Traced (SyntaxError ErrUnexpectedParen))).
Proof.
  apply (arnMatches_error_of_pattern
           "arn:aws:sts::*:assumed-role/Node)/*" "" false
           (Traced (SyntaxError ErrUnexpectedParen))).
  vm_compute. reflexivity.
Defined.

Lemma lor_high_l (x y : N) : (128 <= x)%N -> (128 <= N.lor x y)%N.
Proof.
  intros H.
  assert (Hx : (0 < x)%N) by lia.
  assert (Hxy : (0 < N.lor x y)%N).
  { apply N.neq_0_lt_0. intros E. apply N.lor_eq_0_iff in E. lia. }
  change 128%N with (2 ^ 7)%N in *.
  apply N.log2_le_pow2; [exact Hxy|]. apply N.log2_le_pow2 in H; [|exact Hx].
  rewrite N.log2_lor. lia.
Qed.

Lemma lor_high_r (x y : N) : (128 <= y)%N -> (128 <= N.lor x y)%N.
Proof. rewrite N.lor_comm. apply lor_high_l. Qed.

Ltac all_bytes x := destruct x as [[] [] [] [] [] [] [] []].

Lemma utf8_first_continuation (a0 a1 : ascii) (sz : nat) (lo hi : N) :
  utf8_first (N_of_ascii a0) = Some (sz, lo, hi) ->
  between lo hi (N_of_ascii a1) = true ->
  high a1 = true.
Proof.
  unfold utf8_first, between, high. intros H Hb.
  apply andb_true_iff in Hb as [Hlo _]. apply N.leb_le in Hlo. apply N.leb_le.
  repeat match type of H with
         | (if ?b then _ else _) = _ => destruct b
         end; try discriminate; injection H as <- <- <-; lia.
Qed.

Lemma utf8_first_size (b : N) (sz : nat) (lo hi : N) :
  utf8_first b = Some (sz, lo, hi) -> sz = 2%nat \/ sz = 3%nat \/ sz = 4%nat.
Proof.
  unfold utf8_first. intros H.
  repeat match type of H with
         | (if ?b then _ else _) = _ => destruct b
         end; try discriminate; injection H as <- <- <-; tauto.
Qed.

Lemma two_byte_rune (a0 a1 : ascii) (lo hi : N) :
  utf8_first (N_of_ascii a0) = Some (2%nat, lo, hi) ->
  (128 <= N.lor (N.shiftl (N.land (N_of_ascii a0) 31) 6) (low6 (N_of_ascii a1)))%N.
Proof.
  intros H. apply lor_high_l. revert H.
  all_bytes a0; intros H; vm_compute in H; try discriminate H;
    vm_compute; discriminate.
Qed.

Lemma three_byte_rune (a0 a1 a2 : ascii) (lo hi : N) :
  utf8_first (N_of_ascii a0) = Some (3%nat, lo, hi) ->
  between lo hi (N_of_ascii a1) = true ->
  (128 <= N.lor (N.shiftl (N.land (N_of_ascii a0) 15) 12)
                (N.lor (N.shiftl (low6 (N_of_ascii a1)) 6) (low6 (N_of_ascii a2))))%N.
Proof.
  intros H Hb.
  assert (Hor : (128 <= N.shiftl (N.land (N_of_ascii a0) 15) 12)%N
                \/ (128 <= N.shiftl (low6 (N_of_ascii a1)) 6)%N).
  { revert H Hb.
    all_bytes a0; intros H; vm_compute in H; try discriminate H;
      first [ intros _; left; vm_compute; discriminate
            | injection H as <- <-; intros Hb; right; revert Hb;
              all_bytes a1; intros Hb; vm_compute in Hb; try discriminate Hb;
              vm_compute; discriminate ]. }
  destruct Hor as [Hx|Hy]; [apply lor_high_l; exact Hx|].
  apply lor_high_r, lor_high_l. exact Hy.
Qed.

Lemma four_byte_rune (a0 a1 a2 a3 : ascii) (lo hi : N) :
  utf8_first (N_of_ascii a0) = Some (4%nat, lo, hi) ->
  between lo hi (N_of_ascii a1) = true ->
  (128 <= N.lor (N.shiftl (N.land (N_of_ascii a0) 7) 18)
                (N.lor (N.shiftl (low6 (N_of_ascii a1)) 12)
                       (N.lor (N.shiftl (low6 (N_of_ascii a2)) 6)
                              (low6 (N_of_ascii a3)))))%N.
Proof.
  intros H Hb.
  assert (Hor : (128 <= N.shiftl (N.land (N_of_ascii a0) 7) 18)%N
                \/ (128 <= N.shiftl (low6 (N_of_ascii a1)) 12)%N).
  { revert H Hb.
    all_bytes a0; intros H; vm_compute in H; try discriminate H;
      first [ intros _; left; vm_compute; discriminate
            | injection H as <- <-; intros Hb; right; revert Hb;
              all_bytes a1; intros Hb; vm_compute in Hb; try discriminate Hb;
              vm_compute; discriminate ]. }
  destruct Hor as [Hx|Hy]; [apply lor_high_l; exact Hx|].
  apply lor_high_r, lor_high_l. exact Hy.
Qed.

(** Decoding one rune: an ASCII byte is its own rune; anything else gives a
    rune outside ASCII and consumes bytes outside ASCII only. *)
Lemma utf8_chunks_head (a0 : ascii) (t0 : string) :
  (high a0 = false
   /\ utf8_chunks (String a0 t0) = (N_of_ascii a0, String a0 "") :: utf8_chunks t0)
  \/ (high a0 = true
      /\ exists r more rest,
           utf8_chunks (String a0 t0) = (r, String a0 more) :: utf8_chunks rest
           /\ t0 = more +:+ rest
           /\ (128 <= r)%N
           /\ forallb high (list_ascii_of_string more) = true).
Proof.
  cbn [utf8_chunks]. cbv zeta. unfold high.
  destruct (N_of_ascii a0 <? 128)%N eqn:E0.
  { left. split; [|reflexivity]. apply N.leb_gt, N.ltb_lt. exact E0. }
  right. split; [apply N.leb_le, N.ltb_ge; exact E0|].
  assert (Hbad : exists r more rest,
             (RuneError, String a0 "") :: utf8_chunks t0
             = (r, String a0 more) :: utf8_chunks rest
             /\ t0 = more +:+ rest /\ (128 <= r)%N
             /\ forallb (fun c => (128 <=? N_of_ascii c)%N) (list_ascii_of_string more) = true).
  { exists RuneError, "", t0. repeat split. discriminate. }
  destruct (utf8_first (N_of_ascii a0)) as [[[sz lo] hi]|] eqn:Hf; [|exact Hbad].
  destruct t0 as [|a1 t1]; [exact Hbad|].
  destruct (between lo hi (N_of_ascii a1)) eqn:H1; cbn [negb]; [|exact Hbad].
  pose proof (utf8_first_continuation _ _ _ _ _ Hf H1) as Hh1. unfold high in Hh1.
  destruct (utf8_first_size _ _ _ _ Hf) as [-> | [-> | ->]]; cbn [Nat.eqb].
  - exists (N.lor (N.shiftl (N.land (N_of_ascii a0) 31) 6) (low6 (N_of_ascii a1))),
      (String a1 ""), t1.
    split; [reflexivity|]. split; [reflexivity|].
    split; [eapply two_byte_rune; exact Hf|].
    cbn [list_ascii_of_string forallb]. rewrite Hh1. reflexivity.
  - destruct t1 as [|a2 t2]; [exact Hbad|].
    destruct (between 128 191 (N_of_ascii a2)) eqn:H2; cbn [negb]; [|exact Hbad].
    assert (Hh2 : (128 <=? N_of_ascii a2)%N = true)
      by (unfold between in H2; apply andb_true_iff in H2; tauto).
    eexists _, (String a1 (String a2 "")), t2.
    split; [reflexivity|]. split; [reflexivity|].
    split; [eapply three_byte_rune; [exact Hf|exact H1]|].
    cbn [list_ascii_of_string forallb]. rewrite Hh1, Hh2. reflexivity.
  - destruct t1 as [|a2 t2]; [exact Hbad|].
    destruct (between 128 191 (N_of_ascii a2)) eqn:H2; cbn [negb]; [|exact Hbad].
    assert (Hh2 : (128 <=? N_of_ascii a2)%N = true)
      by (unfold between in H2; apply andb_true_iff in H2; tauto).
    destruct t2 as [|a3 t3]; [exact Hbad|].
    destruct (between 128 191 (N_of_ascii a3)) eqn:H3; cbn [negb]; [|exact Hbad].
    assert (Hh3 : (128 <=? N_of_ascii a3)%N = true)
      by (unfold between in H3; apply andb_true_iff in H3; tauto).
    eexists _, (String a1 (String a2 (String a3 ""))), t3.
    split; [reflexivity|]. split; [reflexivity|].
    split; [eapply four_byte_rune; [exact Hf|exact H1]|].
    cbn [list_ascii_of_string forallb]. rewrite Hh1, Hh2, Hh3. reflexivity.
Qed.



(** Text whose runes are those of an ASCII string is that string. *)
Lemma ascii_runes_bytes (p : list ascii) (s : string) :
  forallb is_ascii p = true ->
  map fst (utf8_chunks s) = map N_of_ascii p ->
  list_ascii_of_string s = p.
Proof.
  revert s. induction p as [|x p IH]; intros s Hp Hs.
  - destruct s as [|a0 t0]; [reflexivity|].
    destruct (utf8_chunks_head a0 t0) as [[_ E]|(_ & r & more & rest & E & _)];
      rewrite E in Hs; discriminate Hs.
  - cbn [forallb] in Hp. apply andb_true_iff in Hp as [Hx Hp].
    destruct s as [|a0 t0]; [discriminate Hs|].
    destruct (utf8_chunks_head a0 t0) as [[_ E]|(_ & r & more & rest & E & _ & Hr & _)];
      rewrite E in Hs; cbn [map fst] in Hs; injection Hs as Hhead Htail.
    + cbn [list_ascii_of_string]. f_equal; [|apply IH; assumption].
      rewrite <- (ascii_N_embedding a0), <- (ascii_N_embedding x), Hhead. reflexivity.
    + unfold is_ascii in Hx. apply N.ltb_lt in Hx. lia.
Qed.

Lemma matches_concat_inv a b pos s rest :
  matches (OpConcat a b) pos s rest ->
  exists s1 s2, s = (s1 ++ s2)%list /\ matches a pos s1 (s2 ++ rest)%list
                /\ matches b (pos + length s1) s2 rest.
Proof. inversion 1; subst. eauto. Qed.

Lemma matches_begin_inv pos s rest :
  matches OpBeginText pos s rest -> pos = 0%nat /\ s = [].
Proof. inversion 1; subst. tauto. Qed.

Lemma matches_end_inv pos s rest :
  matches OpEndText pos s rest -> s = [] /\ rest = [].
Proof. inversion 1; subst. tauto. Qed.

Lemma matches_literal_inv r pos s rest :
  matches (OpLiteral r) pos s rest -> exists b, s = [(r, b)].
Proof. inversion 1; subst. eauto. Qed.





Lemma anchored_match (body : Regexp) (pre mid post : list chunk) :
  matches (OpConcat OpBeginText body) (length pre) mid post ->
  pre = [] /\ matches body 0 mid post.
Proof.
  intros H. apply matches_concat_inv in H as (s1 & s2 & -> & H1 & H2).
  apply matches_begin_inv in H1 as [Hpos ->].
  destruct pre; [|discriminate Hpos]. split; [reflexivity|exact H2].
Qed.



Lemma plain_glob_item (a : ascii) :
  plain_byte a = true -> glob_item a = OpLiteral (N_of_ascii a).
Proof.
  intros H. unfold glob_item.
  destruct (Ascii.eqb a "*") eqn:E1; [apply Ascii.eqb_eq in E1; subst; discriminate H|].
  destruct (Ascii.eqb a "?") eqn:E2; [apply Ascii.eqb_eq in E2; subst; discriminate H|].
  reflexivity.
Qed.

Lemma plain_is_wildcard (p : string) :
  forallb plain_byte (list_ascii_of_string p) = true -> wildcard_pattern p = true.
Proof.
  unfold wildcard_pattern. rewrite !forallb_forall. intros H x Hx.
  rewrite (H x Hx). reflexivity.
Qed.

Lemma literal_body (p : list ascii) :
  forallb plain_byte p = true ->
  forall pos s rest,
    matches (glob_body p) pos s rest <-> rest = [] /\ map fst s = map N_of_ascii p.
Proof.
  induction p as [|a p IH]; intros Hp pos s rest.
  - split.
    + intros H. apply matches_end_inv in H as [-> ->]. split; reflexivity.
    + intros [-> H]. destruct s; [|discriminate H]. constructor.
  - cbn [forallb] in Hp. apply andb_true_iff in Hp as [Ha Hp].
    change (glob_body (a :: p)) with (OpConcat (glob_item a) (glob_body p)).
    rewrite (plain_glob_item _ Ha). split.
    + intros H. apply matches_concat_inv in H as (s1 & s2 & -> & H1 & H2).
      apply matches_literal_inv in H1 as (b & ->).
      apply (IH Hp) in H2 as [-> H2]. split; [reflexivity|].
      cbn [app map fst]. rewrite H2. reflexivity.
    + intros [-> H]. destruct s as [|[r b] s]; [discriminate H|].
      cbn [map fst] in H. injection H as -> H.
      change ((N_of_ascii a, b) :: s) with ([(N_of_ascii a, b)] ++ s)%list.
      constructor; [constructor|]. apply (IH Hp). split; [reflexivity|exact H].
Qed.

Lemma plain_bytes_ascii (p : list ascii) :
  forallb plain_byte p = true -> forallb is_ascii p = true.
Proof.
  rewrite !forallb_forall. intros H x Hx. specialize (H x Hx).
  unfold plain_byte in H. apply andb_true_iff in H. tauto.
Qed.

(** X7: a pattern without wildcards and without regexp metacharacters
    matches exactly one subject, itself: for every subject, valid UTF-8 or
    not, arnMatches is equality of the two strings, without error. *)
Theorem pattern_without_wildcards_is_equality (pattern arn : string) :
  forallb plain_byte (list_ascii_of_string pattern) = true ->
  arnMatches pattern arn = Returns (pattern =? arn, None).
Proof.
  intros Hp.
  pose proof (arnMatches_cases pattern arn) as H.
  rewrite (syntax_Parse_translated _ (plain_is_wildcard _ Hp)) in H. rewrite H.
  do 2 f_equal.
  pose proof (plain_bytes_ascii _ Hp) as Hascii.
  destruct (pattern =? arn) eqn:E.
  - apply String.eqb_eq in E. subst arn.
    apply Regexp_MatchString_spec. cbn [expr].
    exists [], (utf8_chunks pattern), []. split; [rewrite app_nil_r; reflexivity|].
    change (utf8_chunks pattern) with ([] ++ utf8_chunks pattern)%list at 1.
    constructor; [constructor|].
    apply (literal_body _ Hp). split; [reflexivity|]. apply runes_ascii. exact Hascii.
  - destruct (Regexp_MatchString _ arn) eqn:Em; [|reflexivity]. exfalso.
    apply Regexp_MatchString_spec in Em as (pre & mid & post & Hch & Hm).
    cbn [expr] in Hm. apply anchored_match in Hm as [-> Hm].
    apply (literal_body _ Hp) in Hm as [-> Hm].
    cbn [app] in Hch. rewrite app_nil_r in Hch. rewrite <- Hch in Hm.
    apply (ascii_runes_bytes _ _ Hascii) in Hm.
    apply String.eqb_neq in E. apply E.
    rewrite <- (string_of_list_ascii_of_string arn), Hm.
    symmetry. apply string_of_list_ascii_of_string.
Qed.

Lemma pattern_without_wildcards_is_equality_witness :
  arnMatches "arn:aws:sts::123456789012:assumed-role/Node/i-0abc"
             "arn:aws:sts::123456789012:assumed-role/Node/i-0abcd"
  = Returns (false, None).
Proof.
  apply (pattern_without_wildcards_is_equality
           "arn:aws:sts::123456789012:assumed-role/Node/i-0abc"
           "arn:aws:sts::123456789012:assumed-role/Node/i-0abcd").
  vm_compute. reflexivity.
Defined.

(** ** The scan of the allow rules *)

Lemma range_step_other_account (identity : awsIdentity) (rule : TokenRule)
    (rest : list TokenRule) :
  account_applies identity rule = false ->
  checkIAMAllowRules_range identity (rule :: rest)
  = checkIAMAllowRules_range identity rest.
Proof.
  unfold account_applies. intros H. apply orb_false_iff in H as [H1 H2].
  cbn [checkIAMAllowRules_range]. rewrite H2.
  destruct (AWSAccount rule); [discriminate H1|]. reflexivity.
Qed.

Lemma account_applies_guard (identity : awsIdentity) (rule : TokenRule) :
  (0 <? String.length (AWSAccount rule))%nat
  && negb (AWSAccount rule =? Account identity) = negb (account_applies identity rule).
Proof.
  unfold account_applies.
  destruct (AWSAccount rule) as [|c s]; [reflexivity|].
  cbn [String.length Nat.ltb Nat.leb andb]. 
  change (String c s =? "") with false. reflexivity.
Qed.

(** X10: rules that name another account than the identity's do not
    count: checkIAMAllowRules gives the same result when they are removed
    from the token, whatever their patterns are, patterns that do not
    compile included. *)
Theorem rules_for_other_accounts_ignored (identity : awsIdentity)
    (token : ProvisionToken) :
  checkIAMAllowRules identity token
  = checkIAMAllowRules identity
      {| JoinMethod := JoinMethod token;
         AllowRules := List.filter (account_applies identity) (AllowRules token) |}.
Proof.
  unfold checkIAMAllowRules. cbn [AllowRules].
  induction (AllowRules token) as [|rule rest IH]; [reflexivity|].
  cbn [List.filter].
  destruct (account_applies identity rule) eqn:E.
  - cbn [checkIAMAllowRules_range]. rewrite account_applies_guard, E. cbn [negb].
    destruct (0 <? String.length (AWSARN rule))%nat; [|reflexivity].
    destruct (arnMatches (AWSARN rule) (Arn identity)) as [[b [e|]]|];
      cbn [modelled_bind fst snd]; try reflexivity.
    destruct b; cbn [negb]; [reflexivity|exact IH].
  - rewrite (range_step_other_account _ _ _ E). exact IH.
Qed.

(** X9: the scan of a list of rules followed by more rules is the scan of
    the first list and, only if that one ends with the AccessDenied of a
    list without match, the scan of the others.  So rules added at the end
    of a token never take back an acceptance, and never hide an error of an
    earlier pattern. *)
Theorem allow_rules_append (identity : awsIdentity) (method : string)
    (first more : list TokenRule) :
  let run rules :=
    checkIAMAllowRules identity {| JoinMethod := method; AllowRules := rules |} in
  run (first ++ more)%list
  = match run first with
    | Returns (Some e) =>
        if IsAccessDenied (Some e) then run more else Returns (Some e)
    | r => r
    end
  /\ (run first = Returns None -> run (first ++ more)%list = Returns None).
Proof.
  cbv zeta.
  assert (H : checkIAMAllowRules identity
                {| JoinMethod := method; AllowRules := (first ++ more)%list |}
              = match checkIAMAllowRules identity
                        {| JoinMethod := method; AllowRules := first |} with
                | Returns (Some e) =>
                    if IsAccessDenied (Some e)
                    then checkIAMAllowRules identity
                           {| JoinMethod := method; AllowRules := more |}
                    else Returns (Some e)
                | r => r
                end).
  { unfold checkIAMAllowRules. cbn [AllowRules].
    induction first as [|rule rest IH]; [reflexivity|].
    cbn [app checkIAMAllowRules_range].
    destruct (_ && _); [exact IH|].
    destruct (0 <? String.length (AWSARN rule))%nat; [|reflexivity].
    destruct (arnMatches (AWSARN rule) (Arn identity)) as [[b [e|]]|] eqn:Harn;
      cbn [modelled_bind fst snd];
      [|destruct b; cbn [negb]; [reflexivity|exact IH]|reflexivity].
    apply arnMatches_error_kind in Harn as (_ & code & _ & ->). reflexivity. }
  split; [exact H|]. intros Hacc. rewrite H, Hacc. reflexivity.
Qed.

Lemma range_error_cases (identity : awsIdentity) (rules : list TokenRule) (e : error) :
  checkIAMAllowRules_range identity rules = Returns (Some e) ->
  (Forall (rule_passed_over identity) rules
   /\ e = AccessDeniedError "instance did not match any allow rules" [])
  \/ (exists pre rule post code,
        rules = (pre ++ rule :: post)%list
        /\ Forall (rule_passed_over identity) pre
        /\ account_matches identity rule /\ AWSARN rule <> ""
        /\ syntax_Parse (translated (AWSARN rule)) = ParseError code
        /\ e = Traced (SyntaxError code)).
Proof.
  induction rules as [|rule rest IH].
  - intros [= <-]. left. split; [constructor|reflexivity].
  - destruct (first_rule_cases identity rule) as [Hp|[Hm|(Hacc & Hset & Hres)]].
    + rewrite (passed_over_step _ _ _ Hp). intros H.
      destruct (IH H) as [[Hall ->]|(pre & r & post & code & -> & Hpre & Hrest)].
      * left. split; [constructor; assumption|reflexivity].
      * right. exists (rule :: pre), r, post, code.
        split; [reflexivity|]. split; [constructor; assumption|exact Hrest].
    + rewrite (matching_step _ _ _ Hm). discriminate.
    + cbn [checkIAMAllowRules_range].
      rewrite (proj2 (account_guard identity rule) Hacc).
      rewrite (proj2 (length_positive _) Hset).
      destruct Hres as [(b & e0 & Hres)| ->]; [|discriminate].
      rewrite Hres. cbn [modelled_bind fst snd trace_Wrap]. intros [= <-].
      apply arnMatches_error_kind in Hres as (_ & code & Hparse & ->).
      right. exists [], rule, rest, code.
      split; [reflexivity|]. split; [constructor|]. tauto.
Qed.

(** X11: an error of checkIAMAllowRules is AccessDenied exactly when
    every rule of the token was passed over, and it is then the error of a
    list without match.  Any other error is the syntax error of the pattern
    of the first rule that is not passed over. *)
Theorem denial_means_no_rule_applies (identity : awsIdentity) (token : ProvisionToken)
    (e : error) :
  checkIAMAllowRules identity token = Returns (Some e) ->
  (IsAccessDenied (Some e) = true
   <-> Forall (rule_passed_over identity) (AllowRules token))
  /\ (IsAccessDenied (Some e) = true ->
      e = AccessDeniedError "instance did not match any allow rules" [])
  /\ (IsAccessDenied (Some e) = false ->
      exists pre rule post code,
        AllowRules token = (pre ++ rule :: post)%list
        /\ Forall (rule_passed_over identity) pre
        /\ account_matches identity rule /\ AWSARN rule <> ""
        /\ syntax_Parse (translated (AWSARN rule)) = ParseError code
        /\ e = Traced (SyntaxError code)).
Proof.
  unfold checkIAMAllowRules. intros H.
  destruct (range_error_cases _ _ _ H) as [[Hall ->]|(pre & r & post & code & Hsplit & Hpre & Hacc & Hset & Hparse & ->)].
  - split; [tauto|]. split; [reflexivity|discriminate].
  - split; [|split; [discriminate|intros _; eauto 12]].
    split; [discriminate|]. intros Hall. exfalso.
    rewrite (all_passed_over_denied _ _ Hall) in H. discriminate H.
Qed.

(** The token of the end-to-end scenario denies another account because
    its only rule is passed over. *)
Lemma denial_means_no_rule_applies_witness :
  Forall (rule_passed_over {| Account := "222222222222"; Arn := "anything" |})
         (AllowRules Fake.token1).
Proof.
  apply (proj1 (proj1 (denial_means_no_rule_applies
                         {| Account := "222222222222"; Arn := "anything" |}
                         Fake.token1
                         (AccessDeniedError "instance did not match any allow rules" [])
                         eq_refl))).
  reflexivity.
Defined.


(** ** The challenge *)

Lemma sextet_low (v : N) : sextet v = sextet (N.land v 63).
Proof. unfold sextet. rewrite <- N.land_assoc. reflexivity. Qed.

Lemma unsextet_sextet_small (n : nat) :
  (n < 64)%nat -> unsextet (sextet (N.of_nat n)) = N.of_nat n.
Proof.
  intros H.
  do 64 (destruct n as [|n]; [vm_compute; reflexivity|]). lia.
Qed.

Lemma unsextet_sextet (v : N) : unsextet (sextet v) = N.land v 63.
Proof.
  rewrite sextet_low.
  assert (H : (N.land v 63 < 64)%N).
  { change 63%N with (N.ones 6). rewrite N.land_ones. apply N.mod_lt. discriminate. }
  rewrite <- (N2Nat.id (N.land v 63)). apply unsextet_sextet_small. lia.
Qed.

Lemma sextet_in_alphabet (v : N) : In (sextet v) (list_ascii_of_string encodeStd).
Proof.
  rewrite sextet_low.
  assert (H : (N.land v 63 < 64)%N).
  { change 63%N with (N.ones 6). rewrite N.land_ones. apply N.mod_lt. discriminate. }
  rewrite <- (N2Nat.id (N.land v 63)).
  assert (Hn : (N.to_nat (N.land v 63) < 64)%nat) by lia.
  generalize dependent (N.to_nat (N.land v 63)). intros n Hn.
  do 64 (destruct n as [|n];
         [vm_compute; repeat (first [left; reflexivity | right])|]).
  lia.
Qed.

Ltac byte_cases x := destruct x as [[] [] [] [] [] [] [] []]; reflexivity.

Lemma sextet18 (a b c : ascii) :
  N.land (N.shiftr (group24 a b c) 18) 63 = N.shiftr (N_of_ascii a) 2.
Proof.
  unfold group24. rewrite !N.shiftr_lor, !N.land_lor_distr_l.
  replace (N.land (N.shiftr (N.shiftl (N_of_ascii b) 8) 18) 63) with 0%N by byte_cases b.
  replace (N.land (N.shiftr (N_of_ascii c) 18) 63) with 0%N by byte_cases c.
  rewrite !N.lor_0_r. byte_cases a.
Qed.

Lemma sextet12 (a b c : ascii) :
  N.land (N.shiftr (group24 a b c) 12) 63
  = N.lor (N.shiftl (N.land (N_of_ascii a) 3) 4) (N.shiftr (N_of_ascii b) 4).
Proof.
  unfold group24. rewrite !N.shiftr_lor, !N.land_lor_distr_l.
  replace (N.land (N.shiftr (N_of_ascii c) 12) 63) with 0%N by byte_cases c.
  rewrite !N.lor_0_r. f_equal; [byte_cases a | byte_cases b].
Qed.

Lemma sextet6 (a b c : ascii) :
  N.land (N.shiftr (group24 a b c) 6) 63
  = N.lor (N.shiftl (N.land (N_of_ascii b) 15) 2) (N.shiftr (N_of_ascii c) 6).
Proof.
  unfold group24. rewrite !N.shiftr_lor, !N.land_lor_distr_l.
  replace (N.land (N.shiftr (N.shiftl (N_of_ascii a) 16) 6) 63) with 0%N by byte_cases a.
  rewrite !N.lor_0_l. f_equal; [byte_cases b | byte_cases c].
Qed.

Lemma sextet0 (a b c : ascii) :
  N.land (group24 a b c) 63 = N.land (N_of_ascii c) 63.
Proof.
  unfold group24. rewrite !N.land_lor_distr_l.
  replace (N.land (N.shiftl (N_of_ascii a) 16) 63) with 0%N by byte_cases a.
  replace (N.land (N.shiftl (N_of_ascii b) 8) 63) with 0%N by byte_cases b.
  reflexivity.
Qed.

Lemma decoded_first (a b : ascii) :
  ascii_of_N (N.lor (N.shiftl (N.shiftr (N_of_ascii a) 2) 2)
                    (N.shiftr (N.lor (N.shiftl (N.land (N_of_ascii a) 3) 4)
                                     (N.shiftr (N_of_ascii b) 4)) 4)) = a.
Proof.
  rewrite N.shiftr_lor.
  replace (N.shiftr (N.shiftr (N_of_ascii b) 4) 4) with 0%N by byte_cases b.
  rewrite N.lor_0_r. byte_cases a.
Qed.

Lemma decoded_second (a b c : ascii) :
  ascii_of_N
    (N.lor (N.shiftl (N.land (N.lor (N.shiftl (N.land (N_of_ascii a) 3) 4)
                                    (N.shiftr (N_of_ascii b) 4)) 15) 4)
           (N.shiftr (N.lor (N.shiftl (N.land (N_of_ascii b) 15) 2)
                            (N.shiftr (N_of_ascii c) 6)) 2)) = b.
Proof.
  rewrite N.shiftr_lor, N.land_lor_distr_l, N.shiftl_lor.
  replace (N.shiftl (N.land (N.shiftl (N.land (N_of_ascii a) 3) 4) 15) 4)
    with 0%N by byte_cases a.
  replace (N.shiftr (N.shiftr (N_of_ascii c) 6) 2) with 0%N by byte_cases c.
  rewrite N.lor_0_l, N.lor_0_r. byte_cases b.
Qed.

Lemma decoded_third (b c : ascii) :
  ascii_of_N
    (N.lor (N.shiftl (N.land (N.lor (N.shiftl (N.land (N_of_ascii b) 15) 2)
                                    (N.shiftr (N_of_ascii c) 6)) 3) 6)
           (N.land (N_of_ascii c) 63)) = c.
Proof.
  rewrite N.land_lor_distr_l, N.shiftl_lor.
  replace (N.shiftl (N.land (N.shiftl (N.land (N_of_ascii b) 15) 2) 3) 6)
    with 0%N by byte_cases b.
  rewrite N.lor_0_l. byte_cases c.
Qed.

Lemma group24_two (a b : ascii) :
  N.lor (N.shiftl (N_of_ascii a) 16) (N.shiftl (N_of_ascii b) 8) = group24 a b zero.
Proof. unfold group24. change (N_of_ascii zero) with 0%N. rewrite N.lor_0_r. reflexivity. Qed.

Lemma group24_one (a : ascii) : N.shiftl (N_of_ascii a) 16 = group24 a zero zero.
Proof. unfold group24. change (N_of_ascii zero) with 0%N. cbn. rewrite N.lor_0_r. reflexivity. Qed.

Lemma decode_encode_by_length (n : nat) (s : string) :
  (String.length s <= n)%nat ->
  base64_RawStdEncoding_Decode (base64_RawStdEncoding_Encode s) = s.
Proof.
  revert s. induction n as [n IH] using lt_wf_ind. intros s Hn.
  destruct s as [|a [|b [|c rest]]].
  - reflexivity.
  - cbn [base64_RawStdEncoding_Encode]. cbv zeta. rewrite group24_one.
    cbn [base64_RawStdEncoding_Decode].
    rewrite !unsextet_sextet, sextet18, sextet12.
    pose proof (decoded_first a zero) as H. change (N_of_ascii zero) with 0%N in *.
    rewrite H. reflexivity.
  - cbn [base64_RawStdEncoding_Encode]. cbv zeta. rewrite group24_two.
    cbn [base64_RawStdEncoding_Decode].
    rewrite !unsextet_sextet, sextet18, sextet12, sextet6.
    rewrite decoded_first, decoded_second. reflexivity.
  - cbn [base64_RawStdEncoding_Encode]. cbv zeta. fold (group24 a b c).
    cbn [base64_RawStdEncoding_Decode].
    rewrite !unsextet_sextet, sextet18, sextet12, sextet6, sextet0.
    rewrite decoded_first, decoded_second, decoded_third.
    rewrite (IH (String.length rest)); [reflexivity | cbn [String.length] in Hn; lia | lia].
Qed.

Lemma decode_encode (s : string) :
  base64_RawStdEncoding_Decode (base64_RawStdEncoding_Encode s) = s.
Proof. apply (decode_encode_by_length (String.length s)). lia. Qed.

Lemma encode_alphabet_by_length (n : nat) (s : string) :
  (String.length s <= n)%nat ->
  Forall (fun c => In c (list_ascii_of_string encodeStd))
         (list_ascii_of_string (base64_RawStdEncoding_Encode s)).
Proof.
  revert s. induction n as [n IH] using lt_wf_ind. intros s Hn.
  destruct s as [|a [|b [|c rest]]];
    cbn [base64_RawStdEncoding_Encode list_ascii_of_string]; cbv zeta;
    repeat (apply List.Forall_cons; [apply sextet_in_alphabet|]);
    try apply List.Forall_nil.
  apply (IH (String.length rest)); [cbn [String.length] in Hn; lia | lia].
Qed.

Lemma encode_length_by_length (n : nat) (s : string) :
  (String.length s <= n)%nat ->
  String.length (base64_RawStdEncoding_Encode s) = ((8 * String.length s + 5) / 6)%nat.
Proof.
  revert s. induction n as [n IH] using lt_wf_ind. intros s Hn.
  destruct s as [|a [|b [|c rest]]]; try reflexivity.
  cbn [base64_RawStdEncoding_Encode String.length]. cbv zeta.
  cbn [String.length].
  rewrite (IH (String.length rest)); [|cbn [String.length] in Hn; lia | lia].
  replace (8 * S (S (S (String.length rest))) + 5)%nat
    with ((8 * String.length rest + 5) + 4 * 6)%nat by lia.
  rewrite Nat.div_add by discriminate. lia.
Qed.

Lemma fill_length (n : nat) (written : string) :
  String.length (fill n written) = n.
Proof.
  unfold fill.
  assert (H : forall l, String.length (string_of_list_ascii l) = length l).
  { induction l as [|x l IH]; [reflexivity|]. cbn. rewrite IH. reflexivity. }
  rewrite H, length_take, length_app, length_replicate. lia.
Qed.

Lemma fill_exact (n : nat) (written : string) :
  String.length written = n -> fill n written = written.
Proof.
  intros <-. unfold fill.
  assert (H : length (list_ascii_of_string written) = String.length written).
  { induction written as [|x l IH]; [reflexivity|]. cbn. rewrite IH. reflexivity. }
  rewrite <- H, take_app_length. apply string_of_list_ascii_of_string.
Qed.

(** X18: the challenge of an attempt, the unpadded base64 text of the
    32-byte buffer, has 43 characters, all of them of the base64 alphabet,
    and keeps every bit of the buffer: equal challenges come from equal
    buffers, so two reads of 32 random bytes that differ give different
    challenges. *)
Theorem challenge_keeps_the_random_bytes (written written' : string) :
  let challenge w := base64_RawStdEncoding_Encode (fill 32 w) in
  String.length (challenge written) = 43%nat
  /\ Forall (fun c => In c (list_ascii_of_string encodeStd))
            (list_ascii_of_string (challenge written))
  /\ (challenge written = challenge written' -> fill 32 written = fill 32 written')
  /\ (String.length written = 32%nat -> String.length written' = 32%nat ->
      challenge written = challenge written' -> written = written').
Proof.
  cbv zeta.
  assert (Hinj : base64_RawStdEncoding_Encode (fill 32 written)
                 = base64_RawStdEncoding_Encode (fill 32 written') ->
                 fill 32 written = fill 32 written').
  { intros H. rewrite <- (decode_encode (fill 32 written)), H. apply decode_encode. }
  split.
  { rewrite (encode_length_by_length _ _ (Nat.le_refl _)), fill_length. reflexivity. }
  split; [apply (encode_alphabet_by_length _ _ (Nat.le_refl _))|].
  split; [exact Hinj|].
  intros H1 H2 H. apply Hinj in H. rewrite !fill_exact in H by assumption. exact H.
Qed.

(** ** The calls of the handshake *)


Section HandshakeCalls.

Context {W Certs : Type}.
Variable a : Server W Certs.

(** X12: executeSTSIdentityRequest calls the client exactly once, with
    the request it was given, and returns: the world is the one the client
    left.  With every error the identity returned is the zero identity and
    the error went through the trace package; an error of the client itself
    is returned wrapped. *)
Theorem execute_calls_client_once (client : httpClient W) (req : Request) (w : W)
    (log : list (call Certs)) :
  exists identity err,
    executeSTSIdentityRequest a client req (w, log)
    = Returns ((identity, err), (snd (Do client req w), (log ++ [CallDo req])%list))
    /\ (err <> None -> identity = zero_awsIdentity)
    /\ (forall e, err = Some e -> is_traced e = true)
    /\ (forall e0, fst (Do client req w) = Err e0 -> err = Some (Wrap e0)).
Proof.
  unfold executeSTSIdentityRequest, bind, perform, ret.
  cbn [fst snd modelled_bind].
  destruct (Do client req w) as [[resp|e] w1]; cbn [fst snd].
  2:{ do 2 eexists. split; [reflexivity|]. split; [reflexivity|].
      split; [intros e1 [= <-]; reflexivity | intros e0 [= <-]; reflexivity]. }
  unfold io_ReadAll. cbv beta iota zeta.
  destruct (failure (Response_Body resp)).
  { do 2 eexists. split; [reflexivity|]. split; [reflexivity|].
    split; [intros e1 [= <-]; reflexivity | discriminate]. }
  destruct (negb (StatusCode resp =? http_StatusOK)%N).
  { do 2 eexists. split; [reflexivity|]. split; [reflexivity|].
    split; [intros e1 [= <-]; reflexivity | discriminate]. }
  destruct (json_Unmarshal a (data (Response_Body resp))).
  - do 2 eexists. split; [reflexivity|]. split; [congruence|].
    split; discriminate.
  - do 2 eexists. split; [reflexivity|]. split; [reflexivity|].
    split; [intros e1 [= <-]; reflexivity | discriminate].
Qed.








(** X14: forcing the URL in parseSTSRequest does not make a request
    acceptable.  A request that validateSTSIdentityRequest rejects ends
    checkIAMRequest with the validator's error, after the token lookup
    and without any call of the client; in particular a request whose
    Host is not sts.amazonaws.com is denied with AccessDenied although its
    URL names that host after parsing. *)
Theorem rejected_request_is_not_sent (client : httpClient W) (challenge : string)
    (req : RegisterUsingTokenRequest) (w w1 : W) (log : list (call Certs))
    (tok : ProvisionToken) (httpReq : Request) :
  GetToken a (Token req) w = (Ok tok, w1) ->
  JoinMethod tok = JoinMethodIAM ->
  http_ReadRequest a (STSIdentityRequest req) = Ok httpReq ->
  (forall parsed e,
     parseSTSRequest a (STSIdentityRequest req) = Ok parsed ->
     snd (validateSTSIdentityRequest parsed challenge) = Some e ->
     checkIAMRequest a client challenge req (w, log)
     = Returns (Some e, (w1, (log ++ [CallGetToken (Token req)])%list)))
  /\ (Host httpReq <> stsHost ->
      exists parsed e,
        parseSTSRequest a (STSIdentityRequest req) = Ok parsed
        /\ URL_Host (Request_URL parsed) = stsHost
        /\ checkIAMRequest a client challenge req (w, log)
           = Returns (Some e, (w1, (log ++ [CallGetToken (Token req)])%list))
        /\ IsAccessDenied (Some e) = true).
Proof.
  intros Htok Hj Hread.
  assert (Hgen : forall parsed e,
             parseSTSRequest a (STSIdentityRequest req) = Ok parsed ->
             snd (validateSTSIdentityRequest parsed challenge) = Some e ->
             checkIAMRequest a client challenge req (w, log)
             = Returns (Some e, (w1, (log ++ [CallGetToken (Token req)])%list))).
  { intros parsed e Hp Hv.
    unfold checkIAMRequest, bind, perform, ret. cbn [fst snd modelled_bind].
    rewrite Htok. cbn [fst snd]. rewrite Hj, String.eqb_refl. cbn [negb]. rewrite Hp.
    pose proof (validate_error_traced _ _ _ Hv) as Ht.
    destruct (validateSTSIdentityRequest parsed challenge) as [out [e'|]];
      cbn [snd] in Hv; [|discriminate].
    injection Hv as ->. unfold trace_Wrap. rewrite (Wrap_traced _ Ht). reflexivity. }
  split; [exact Hgen|].
  intros Hhost.
  assert (Hp : exists parsed, parseSTSRequest a (STSIdentityRequest req) = Ok parsed
                              /\ URL_Host (Request_URL parsed) = stsHost
                              /\ Host parsed = Host httpReq).
  { unfold parseSTSRequest. rewrite Hread. eexists. repeat split. }
  destruct Hp as (parsed & Hp & Hurl & Hsame).
  assert (Hden : IsAccessDenied (snd (validateSTSIdentityRequest parsed challenge)) = true).
  { apply denied_by_first_four. left. rewrite check_host_iff. congruence. }
  destruct (snd (validateSTSIdentityRequest parsed challenge)) as [e|] eqn:Hv;
    [|discriminate].
  exists parsed, e. split; [exact Hp|]. split; [exact Hurl|].
  split; [exact (Hgen _ _ Hp Hv)|exact Hden].
Qed.

(** X20: the handshake runs to its end.  When the connection has a peer
    address, the random source, the stream, the token store, the identity
    endpoint and the certificate authority answer without error, the token
    is an IAM token, the node's request parses and is accepted for the
    challenge that was sent, the endpoint answers 200 with a body that
    decodes to an identity the token's rules accept, then
    registerUsingIAMMethod returns nil after exactly the seven calls of the
    protocol, the last one sending the certificates that were issued. *)
Theorem handshake_succeeds (srv : registerUsingIAMMethodServer W Certs)
    (w w1 w2 w3 w4 w5 w6 w7 : W) (nodeAddress written : string)
    (received : RegisterUsingTokenRequest) (tok : ProvisionToken)
    (parsed validated : Request) (resp : Response)
    (identityResponse : stsIdentityResponse) (certs : Certs) :
  let challenge := base64_RawStdEncoding_Encode (fill 32 written) in
  let req := set_RemoteAddr received nodeAddress in
  peer_FromContext srv = Some nodeAddress ->
  rand_Read a 32 w = ((written, None), w1) ->
  Send srv {| Challenge := challenge; Certs_ := None |} w1 = (None, w2) ->
  Recv srv w2 = (Ok received, w3) ->
  GetToken a (Token received) w3 = (Ok tok, w4) ->
  JoinMethod tok = JoinMethodIAM ->
  parseSTSRequest a (STSIdentityRequest received) = Ok parsed ->
  validateSTSIdentityRequest parsed challenge = (validated, None) ->
  Do (http_DefaultClient a) validated w4 = (Ok resp, w5) ->
  failure (Response_Body resp) = None ->
  StatusCode resp = http_StatusOK ->
  json_Unmarshal a (data (Response_Body resp)) = Ok identityResponse ->
  checkIAMAllowRules (GetCallerIdentityResult (GetCallerIdentityResponse identityResponse))
                     tok = Returns None ->
  RegisterUsingToken a req w5 = (Ok certs, w6) ->
  Send srv {| Challenge := ""; Certs_ := Some certs |} w6 = (None, w7) ->
  registerUsingIAMMethod a srv (w, [])
  = Returns (None,
             (w7, [CallRandRead 32; CallSend {| Challenge := challenge; Certs_ := None |};
                   CallRecv; CallGetToken (Token received); CallDo validated;
                   CallRegisterUsingToken req;
                   CallSend {| Challenge := ""; Certs_ := Some certs |}])).
Proof.
  intros challenge req Hpeer Hrand Hsend Hrecv Htok Hjoin Hparse Hvalid HDo Hbody
    Hstatus Hjson Hrules Hissue Hsend2.
  unfold registerUsingIAMMethod. rewrite Hpeer.
  unfold bind, perform, ret. cbn [fst snd modelled_bind app].
  rewrite Hrand. cbn [fst snd modelled_bind]. fold challenge.
  rewrite Hsend. cbn [fst snd modelled_bind].
  rewrite Hrecv. cbn [fst snd modelled_bind].
  unfold checkIAMRequest, executeSTSIdentityRequest, bind, perform, ret, lift.
  cbn [fst snd modelled_bind app Token set_RemoteAddr STSIdentityRequest].
  rewrite Htok. cbn [fst snd modelled_bind].
  rewrite Hjoin, String.eqb_refl. cbn [negb].
  rewrite Hparse, Hvalid. cbv beta iota. cbn [fst snd modelled_bind].
  rewrite HDo. cbn [fst snd modelled_bind].
  unfold io_ReadAll. cbv beta iota zeta. rewrite Hbody, Hstatus, N.eqb_refl.
  cbn [negb]. rewrite Hjson. cbn [fst snd modelled_bind].
  rewrite Hrules. cbn [fst snd modelled_bind].
  unfold req in Hissue. rewrite Hissue. cbn [fst snd modelled_bind].
  rewrite Hsend2. cbn [fst snd modelled_bind trace_Wrap]. reflexivity.
Qed.


End HandshakeCalls.





(** A request for another host, well-formed otherwise. *)
Lemma rejected_request_is_not_sent_witness :
  let foreign := Fake.request "sts.example.org" "POST" (Some Fake.challenge)
                   "host;x-teleport-challenge"
                   (bytes_NewBuffer expectedSTSIdentityRequestBody) in
  exists parsed e,
    parseSTSRequest (Fake.relay foreign) (STSIdentityRequest Fake.received_request) = Ok parsed
    /\ URL_Host (Request_URL parsed) = stsHost
    /\ checkIAMRequest (Fake.relay foreign) (http_DefaultClient (Fake.relay foreign))
         Fake.challenge Fake.received_request (0, [])
       = Returns (Some e, (1, [CallGetToken "tok-1"]))
    /\ IsAccessDenied (Some e) = true.
Proof.
  intros foreign.
  apply (proj2 (rejected_request_is_not_sent (Fake.relay foreign)
                  (http_DefaultClient (Fake.relay foreign))
                  Fake.challenge Fake.received_request 0 1 [] Fake.token1 foreign
                  eq_refl eq_refl eq_refl)).
  vm_compute. discriminate.
Defined.

(** The end-to-end scenario runs to its end. *)
Lemma handshake_succeeds_witness :
  registerUsingIAMMethod (Fake.server "111111111111") Fake.stream (0, [])
  = Returns (None,
             (7, [CallRandRead 32; CallSend {| Challenge := Fake.challenge; Certs_ := None |};
                  CallRecv; CallGetToken "tok-1"; CallDo (Fake.forwarded_request Fake.challenge);
                  CallRegisterUsingToken Fake.received_request;
                  CallSend {| Challenge := ""; Certs_ := Some "certs" |}])).
Proof.
  apply (handshake_succeeds (Fake.server "111111111111") Fake.stream
           0 1 2 3 4 5 6 7 "10.0.0.7:3022" Fake.random_bytes Fake.join_request
           Fake.token1
           (Fake.forwarded_request Fake.challenge) (Fake.forwarded_request Fake.challenge)
           {| Status := "200 OK"; StatusCode := 200;
              Response_Body := bytes_NewBuffer "111111111111" |}
           {| GetCallerIdentityResponse :=
                {| GetCallerIdentityResult :=
                     {| Account := "111111111111";
                        Arn := "arn:aws:sts::111111111111:assumed-role/Node/i-1" |} |} |}
           "certs"); vm_compute; reflexivity.
Defined.


(** ** The node's request *)

Lemma Header_Get_Set (h : Header) (key key' value : string) :
  CanonicalMIMEHeaderKey key = CanonicalMIMEHeaderKey key' ->
  Header_Get (Header_Set h key value) key' = value.
Proof.
  intros E. unfold Header_Get, Header_Set, Header in *.
  rewrite E, lookup_insert_eq. reflexivity.
Qed.

Lemma Header_Get_Set_other (h : Header) (key key' value : string) :
  CanonicalMIMEHeaderKey key <> CanonicalMIMEHeaderKey key' ->
  Header_Get (Header_Set h key value) key' = Header_Get h key'.
Proof.
  intros E. unfold Header_Get, Header_Set, Header in *.
  rewrite lookup_insert_ne by exact E. reflexivity.
Qed.

(** The request as it is handed to the signer. *)
Lemma request_to_sign (req : Request) (challenge : string) :
  let toSign :=
    set_Header (set_Header req (Header_Set (Request_Header req) "X-Teleport-Challenge" challenge))
      (Header_Set
         (Request_Header
            (set_Header req (Header_Set (Request_Header req) "X-Teleport-Challenge" challenge)))
         "accept" "application/json") in
  (forall name, same_name name challengeHeaderKey ->
     Header_Get (Request_Header toSign) name = challenge)
  /\ Request_Header toSign !! challengeHeaderKey = Some [challenge]
  /\ Header_Get (Request_Header toSign) "accept" = "application/json"
  /\ set_Header toSign (Request_Header req) = set_Header req (Request_Header req).
Proof.
  cbv zeta. cbn [Request_Header set_Header].
  split; [|split; [|split]].
  - intros name Hname. apply challenge_header_any_case in Hname.
    rewrite Header_Get_Set_other, Header_Get_Set; [reflexivity| |].
    + rewrite Hname. reflexivity.
    + rewrite Hname. vm_compute. discriminate.
  - unfold Header_Set, Header in *.
    rewrite lookup_insert_ne by (vm_compute; discriminate).
    apply lookup_insert_eq.
  - apply Header_Get_Set. reflexivity.
  - reflexivity.
Qed.

(** X19: the node sets its headers before it signs.  The request handed
    to the signer is the SDK's request with nothing but headers changed: it
    answers a lookup of the challenge header, under any spelling of its
    name, with the challenge, holds this one value only, and asks for JSON.
    Only a request that was signed without error is written, and bytes are
    returned exactly when no error is. *)
Theorem challenge_is_set_before_signing {W : Type} (sdk : awsSDK W)
    (challenge : string) (w : W) :
  exists toSign out w' rest,
    createSignedSTSIdentityRequest sdk challenge (w, [])
    = (out, (w', CallGetCallerIdentityRequest :: CallSign toSign :: rest))
    /\ (forall name, same_name name challengeHeaderKey ->
          Header_Get (Request_Header toSign) name = challenge)
    /\ Request_Header toSign !! challengeHeaderKey = Some [challenge]
    /\ Header_Get (Request_Header toSign) "accept" = "application/json"
    /\ (let unsigned := fst (GetCallerIdentityRequest sdk w) in
        set_Header toSign (Request_Header unsigned)
        = set_Header unsigned (Request_Header unsigned))
    /\ (forall r, In (CallWrite r) rest ->
          rest = [CallWrite r]
          /\ fst (Sign sdk toSign (snd (GetCallerIdentityRequest sdk w))) = (r, None))
    /\ (fst out = None <-> snd out <> None).
Proof.
  unfold createSignedSTSIdentityRequest.
  destruct (GetCallerIdentityRequest sdk w) as [req w1]. cbn [fst snd app].
  pose proof (request_to_sign req challenge) as Hsign. cbv zeta in Hsign.
  destruct Hsign as (H1 & H2 & H3 & H4).
  set (toSign := set_Header (set_Header req _) _) in *.
  destruct (Sign sdk toSign w1) as [[signed [e|]] w2] eqn:Hsig; cbn [fst snd app].
  - exists toSign. do 3 eexists. split; [reflexivity|].
    repeat (split; [assumption|]). split; [intros r []|].
    cbn [fst snd]. split; [discriminate|reflexivity].
  - destruct (Request_Write sdk signed w2) as [[bytes [e|]] w3]; cbn [fst snd app];
      exists toSign; do 3 eexists; (split; [reflexivity|]);
      repeat (split; [assumption|]);
      (split; [intros r [[= <-]|[]]; rewrite Hsig; split; reflexivity|]); cbn [fst snd].
    + split; [discriminate|reflexivity].
    + split; [discriminate|]. intros H. exfalso. apply H. reflexivity.
Qed.
